(** * yasno-exporter: a shallow embedding of [yasno_exporter.py]

  The exporter polls six calendar feeds, decides for each group which of
  three outage states holds now and publishes the state in three labelled
  gauges.  This file embeds [YasnoMetric] and [Worker] as Rocq functions
  and proves the properties of the specification about them.

  Conventions of the embedding.
  - A Python [str] used as a key or metric name is a [string] whose
    characters are the code points U+0000..U+00FF; on this range
    [str.isupper] and [str.lower] are the functions [isupper] and [lower]
    below, and [lower] maps one character to one character.
  - An event summary is only ever compared for equality, so it is kept as
    the UTF-8 bytes of its text.
  - A timezone-aware datetime is its instant, an integer number of
    microseconds since the epoch; a naive datetime is the number of
    microseconds its fields count from the fields of the epoch.  The value
    of a date-time property of a component is an aware datetime or a value
    an aware datetime cannot be ordered with.
  - A float is given by its value; the only floats the exporter makes are
    those of integers, so the value is an integer.
  - Exceptions are values of [exception]; a computation that can raise
    returns a [result].  Code that mutates the worker, the gauge registry
    or the log is a function of the monad [M], which keeps the state
    reached when an exception is raised, as Python does. *)

From Stdlib Require Import ZArith NArith Ascii String List Permutation Lia.
From stdpp Require Import base option list strings pretty gmap fin_maps.

Local Open Scope Z_scope.

(** ** Exceptions and results *)

Inductive exception : Type :=
  | IndexError                                (* string index out of range *)
  | AttributeError                            (* attribute of [False] or [None] *)
  | TypeError                                 (* ordering an aware datetime with another kind of value *)
  | OverflowError                             (* [float] of an integer too large *)
  | ValueError (arg : string)                 (* [Gauge(...)], [Calendar.from_ical], [time.sleep] *)
  | YasnoMetricException (yasno_key : string) (* raised by the name derivation *)
  | RequestException.                         (* raised by [requests.get] *)

Inductive result (A : Type) : Type :=
  | Ok (a : A)
  | Raise (e : exception).
Arguments Ok {A} a.
Arguments Raise {A} e.

Global Instance result_ret : MRet result := fun A a => Ok a.
Global Instance result_bind : MBind result := fun A B f r =>
  match r with
  | Ok a => f a
  | Raise e => Raise e
  end.

Global Instance exception_eq_dec : EqDecision exception.
Proof. solve_decision. Defined.

(** ** Characters and strings *)

Module Str.

(** [c.isupper()] for a one-character string: the upper-case letters of
    U+0000..U+00FF are A-Z, U+00C0..U+00D6 and U+00D8..U+00DE. *)
Definition isupper (c : ascii) : bool :=
  let n := N_of_ascii c in
  ((65 <=? n) && (n <=? 90) || (192 <=? n) && (n <=? 214)
   || (216 <=? n) && (n <=? 222))%N.

(** [c.lower()]: every upper-case letter of the range has its lower-case
    form 32 code points above it; all other characters are unchanged. *)
Definition lower (c : ascii) : ascii :=
  if isupper c then ascii_of_N (N_of_ascii c + 32) else c.

(** [s.replace(".", "_")] *)
Fixpoint replace_dot (s : string) : string :=
  match s with
  | EmptyString => EmptyString
  | String c s' =>
      String (if Ascii.eqb c "." then "_"%char else c) (replace_dot s')
  end.

(** [s[0]] *)
Definition first (s : string) : result ascii :=
  match s with
  | EmptyString => Raise IndexError
  | String c _ => Ok c
  end.

(** [s[-1]] *)
Fixpoint last (s : string) : result ascii :=
  match s with
  | EmptyString => Raise IndexError
  | String c EmptyString => Ok c
  | String _ s' => last s'
  end.

(** [s[1:]]; the slice of the empty string is empty. *)
Definition tail (s : string) : string :=
  match s with
  | EmptyString => EmptyString
  | String _ s' => s'
  end.

(** The characters of [s], in order, as a [for] loop visits them. *)
Fixpoint chars (s : string) : list ascii :=
  match s with
  | EmptyString => []
  | String c s' => c :: chars s'
  end.

(** A one-character string. *)
Definition of_char (c : ascii) : string := String c EmptyString.

End Str.

(** ** The regular expression of the name check *)

Module Re.

(** [[a-zA-Z_:]] *)
Definition head_class (c : ascii) : bool :=
  let n := N_of_ascii c in
  ((97 <=? n) && (n <=? 122) || (65 <=? n) && (n <=? 90)
   || (n =? 95) || (n =? 58))%N.

(** [[a-zA-Z0-9_:]] *)
Definition tail_class (c : ascii) : bool :=
  head_class c || ((48 <=? N_of_ascii c) && (N_of_ascii c <=? 57))%N.

(** The longest prefix of [s] made of [tail_class] characters: what the
    greedy [[a-zA-Z0-9_:]*] consumes. *)
Fixpoint star_tail (s : string) : nat :=
  match s with
  | EmptyString => 0%nat
  | String c s' => if tail_class c then S (star_tail s') else 0%nat
  end.

(** [re.match("[a-zA-Z_:][a-zA-Z0-9_:]*", s)]: [None] when the pattern does
    not match at position 0, otherwise the match object, given by the end
    of its span.  [re.match] does not require the match to reach the end
    of [s]. *)
Definition re_match (s : string) : option nat :=
  match s with
  | EmptyString => None
  | String c s' => if head_class c then Some (S (star_tail s')) else None
  end.

(** The same pattern anchored at both ends, [^[a-zA-Z_:][a-zA-Z0-9_:]*$]:
    the identifier syntax of the Prometheus data model. *)
Definition fullmatch (s : string) : bool :=
  match re_match s with
  | Some n => Nat.eqb n (String.length s)
  | None => false
  end.

End Re.

(** ** Data: metrics, the worker, calendars, the process state *)

(** A [YasnoMetric] object.  [obj] is the identity of the Python object (its
  allocation number); the [Gauge] it owns in the attribute [metric] is the
  entry of the registry under [name], the registry holding one collector
  per name. *)
Record YasnoMetric : Type := {
  obj : nat;
  yasno_key : string;
  name : string
}.

(** A [Worker] object. *)
Record Worker : Type := {
  collecting_interval_seconds : Z;
  metrics_collector : list YasnoMetric;
  BLACKOUT : string;
  POSSIBLE_BLACKOUT : string;
  NO_BLACKOUT : string
}.

(** The value [.dt] of a date-time property: a timezone-aware datetime,
    given by its instant in microseconds, or a value of another kind (a DATE,
    a floating DATE-TIME without timezone, a duration), which an aware
    datetime cannot be ordered with. *)
Inductive dt_value : Type :=
  | datetime_aware (instant : Z)
  | not_ordered.

(** A calendar component as [gcal.walk()] yields it: the component name and
    what [component.get] returns for the properties [summary], [dtstart] and
    [dtend].  For [summary], [None] stands for anything that is not a text
    ([None] itself when the component has no summary).  For the two times,
    the value is that of the attribute [dt], and [None] stands for anything
    without that attribute ([None] itself when the component lacks the
    property, a list when the property is repeated). *)
Record component : Type := {
  component_name : string;
  summary : option string;
  dtstart : option dt_value;
  dtend : option dt_value
}.

(** What [requests.get] returns. *)
Record Response : Type := {
  status_code : Z;
  content : string
}.

(** The calls of the [logging] module. *)
Inductive log_record : Type :=
  | debug_set (name : string) (value : Z) (label : string)
  | debug_clear (name : string)
  | debug_found (name yasno_key : string)
  | debug_cannot_find (yasno_key : string)
  | error_exception (error : exception)
  | info_created (yasno_key name : string).

(** What the process does not control: the metrics library's own check of a
  metric name, the instants at which the clock is read, in the order of the
  readings (microseconds since the epoch, UTC), the offset of the machine's
  local time from UTC at each reading (microseconds), the outcome of the
  n-th HTTP request ([None] when [requests.get] raises) and the calendar
  parser ([None] when [Calendar.from_ical] raises; otherwise the list that
  [walk()] returns). *)
Record environment : Type := {
  valid_metric_name : string → bool;
  clock : nat → Z;
  utcoffset : nat → Z;
  network : nat → string → option Response;
  from_ical : string → option (list component)
}.

(** The mutable state of the process: the worker, the registry of
  [prometheus_client] (gauge name, then label value, to sample), the log,
  and the numbers of clock readings, HTTP requests and allocated
  [YasnoMetric] objects so far. *)
Record state : Type := {
  self : Worker;
  REGISTRY : gmap string (gmap string Z);
  log : list log_record;
  now_calls : nat;
  get_calls : nat;
  allocated : nat
}.

Definition set_metrics_collector (l : list YasnoMetric) (st : state) : state :=
  {| self := {| collecting_interval_seconds := collecting_interval_seconds (self st);
                metrics_collector := l;
                BLACKOUT := BLACKOUT (self st);
                POSSIBLE_BLACKOUT := POSSIBLE_BLACKOUT (self st);
                NO_BLACKOUT := NO_BLACKOUT (self st) |};
     REGISTRY := REGISTRY st; log := log st; now_calls := now_calls st;
     get_calls := get_calls st; allocated := allocated st |}.

Definition set_REGISTRY (r : gmap string (gmap string Z)) (st : state) : state :=
  {| self := self st; REGISTRY := r; log := log st; now_calls := now_calls st;
     get_calls := get_calls st; allocated := allocated st |}.

Definition add_log (r : log_record) (st : state) : state :=
  {| self := self st; REGISTRY := REGISTRY st; log := log st ++ [r];
     now_calls := now_calls st; get_calls := get_calls st;
     allocated := allocated st |}.

Definition tick_now (st : state) : state :=
  {| self := self st; REGISTRY := REGISTRY st; log := log st;
     now_calls := S (now_calls st); get_calls := get_calls st;
     allocated := allocated st |}.

Definition tick_get (st : state) : state :=
  {| self := self st; REGISTRY := REGISTRY st; log := log st;
     now_calls := now_calls st; get_calls := S (get_calls st);
     allocated := allocated st |}.

Definition tick_allocated (st : state) : state :=
  {| self := self st; REGISTRY := REGISTRY st; log := log st;
     now_calls := now_calls st; get_calls := get_calls st;
     allocated := S (allocated st) |}.

(** ** The monad of the stateful code *)

Definition M (A : Type) : Type := environment → state → result A * state.

Global Instance M_ret : MRet M := fun A a _ st => (Ok a, st).
Global Instance M_bind : MBind M := fun A B f m env st =>
  match m env st with
  | (Ok a, st') => f a env st'
  | (Raise e, st') => (Raise e, st')
  end.

Definition raise {A : Type} (e : exception) : M A := fun _ st => (Raise e, st).
Definition lift {A : Type} (r : result A) : M A := fun _ st => (r, st).
Definition gets {A : Type} (f : state → A) : M A := fun _ st => (Ok (f st), st).
Definition asks {A : Type} (f : environment → A) : M A := fun env st => (Ok (f env), st).
Definition modify (f : state → state) : M unit := fun _ st => (Ok tt, f st).

(** [try: m except YasnoMetricException as error: ...]: the handler gets the
  exception, every other exception propagates. *)
Definition try_except_YasnoMetricException {A : Type} (m : M A)
  : M (A + exception) := fun env st =>
  match m env st with
  | (Ok a, st') => (Ok (inl a), st')
  | (Raise (YasnoMetricException k), st') => (Ok (inr (YasnoMetricException k)), st')
  | (Raise e, st') => (Raise e, st')
  end.

Definition log_call (r : log_record) : M unit := modify (add_log r).

(** ** The metrics library, as far as the exporter uses it *)

(** The sample of gauge [name] at label value [label], if any. *)
Definition sample (r : gmap string (gmap string Z)) (name label : string)
  : option Z :=
  r !! name ≫= fun labels => labels !! label.

(** The registry once a gauge named [name] is added, and once the sample of
    gauge [name] at [label] is set to [value]. *)
Definition registry_add (name : string) (r : gmap string (gmap string Z))
  : gmap string (gmap string Z) :=
  <[name := ∅]> r.

Definition registry_set (name label : string) (value : Z)
    (r : gmap string (gmap string Z)) : gmap string (gmap string Z) :=
  <[name := <[label := value]> (default ∅ (r !! name))]> r.

(** [Gauge(name, documentation, labelnames=["group"])]: the constructor
    checks the name, then registers the gauge in the default registry, which
    refuses a name it already holds; both failures are a [ValueError]. *)
Definition Gauge (name : string) : M unit := fun env st =>
  if negb (valid_metric_name env name) then (Raise (ValueError name), st)
  else if decide (is_Some (REGISTRY st !! name)) then (Raise (ValueError name), st)
  else (Ok tt, set_REGISTRY (registry_add name (REGISTRY st)) st).

(** [float(value)] for an integer: exact below 2^53 in magnitude, otherwise
    rounded to 53 significant bits, ties to even, and an [OverflowError] when
    the rounded value does not fit a double.  The float is given by its
    value, an integer. *)
Definition float_of_int (value : Z) : result Z :=
  let a := Z.abs value in
  if a <? 2 ^ 53 then Ok value
  else
    let e := Z.log2 a - 52 in
    let q := Z.shiftr a e in
    let r := a - Z.shiftl q e in
    let half := Z.shiftl 1 (e - 1) in
    let q := if (half <? r) || ((r =? half) && Z.odd q) then q + 1 else q in
    let rounded := Z.shiftl q e in
    if 2 ^ 1024 <=? rounded then Raise OverflowError
    else Ok (Z.sgn value * rounded).

(** [gauge.labels(group=label).set(value)] on the gauge named [name]: the
    sample stored is [float(value)]. *)
Definition Gauge_labels_set (name label : string) (value : Z) : M unit :=
  stored ← lift (float_of_int value);
  modify (fun st => set_REGISTRY (registry_set name label stored (REGISTRY st)) st).

(** [gauge.clear()]: the samples of the gauge are dropped; a gauge the
    registry does not hold stays out of it. *)
Definition registry_clear (name : string) (r : gmap string (gmap string Z))
  : gmap string (gmap string Z) :=
  match r !! name with
  | Some _ => <[name := ∅]> r
  | None => r
  end.

Definition Gauge_clear (name : string) : M unit :=
  modify (fun st => set_REGISTRY (registry_clear name (REGISTRY st)) st).

(** ** Class [YasnoMetric] *)

Module YasnoMetric.

(** One iteration of the loop over [key[1:]].  [new[-1]] is read only when
    [character.isupper()] holds: [and] evaluates its right operand only
    then. *)
Definition convert_loop_body (new : string) (character : ascii)
  : result string :=
  insert_underscore ←
    (if Str.isupper character
     then l ← Str.last new; mret (negb (Ascii.eqb l "_"))
     else mret false);
  let new := if (insert_underscore : bool) then new +:+ "_" else new in
  mret (new +:+ Str.of_char (Str.lower character)).

Fixpoint convert_loop (new : string) (rest : list ascii) : result string :=
  match rest with
  | [] => mret new
  | character :: rest' =>
      new' ← convert_loop_body new character; convert_loop new' rest'
  end.

(** The value of [new] when the loop ends, before the name check. *)
Definition derived_form (yasno_key : string) : result string :=
  let key := Str.replace_dot yasno_key in
  c ← Str.first key;
  convert_loop (Str.of_char (Str.lower c)) (Str.chars (Str.tail key)).

Definition convert_yasno_key_to_prometheus_name (yasno_key : string)
  : result string :=
  new ← derived_form yasno_key;
  if negb (bool_decide (is_Some (Re.re_match new)))
  then Raise (YasnoMetricException yasno_key)
  else mret new.

(** [YasnoMetric(yasno_key)]: the object is allocated, then initialised. *)
Definition __init__ (yasno_key : string) : M YasnoMetric :=
  this ← gets allocated;
  modify tick_allocated;;
  derived ← lift (convert_yasno_key_to_prometheus_name yasno_key);
  let name := "yasno_" +:+ derived in
  Gauge name;;
  mret {| obj := this; yasno_key := yasno_key; name := name |}.

Definition set (self : YasnoMetric) (value : Z) (label : string) : M unit :=
  log_call (debug_set (name self) value label);;
  Gauge_labels_set (name self) label value.

Definition clear (self : YasnoMetric) : M unit :=
  log_call (debug_clear (name self));;
  Gauge_clear (name self).

End YasnoMetric.

(** ** Class [Worker] *)

Module Worker.

Definition __init__ (collecting_interval_seconds : Z) : Worker :=
  {| collecting_interval_seconds := collecting_interval_seconds;
     metrics_collector := [];
     BLACKOUT := "blackout";
     POSSIBLE_BLACKOUT := "possible_blackout";
     NO_BLACKOUT := "no_blackout" |}.

(** The scan of [get_metric_by_yasno_key]: the first metric of the list
    with the given key. *)
Fixpoint scan (metrics : list YasnoMetric) (key : string)
  : option YasnoMetric :=
  match metrics with
  | [] => None
  | metric :: rest =>
      if String.eqb (yasno_key metric) key then Some metric else scan rest key
  end.

(** [None] stands for the [False] the method returns when no metric has
    the key. *)
Definition get_metric_by_yasno_key (key : string) : M (option YasnoMetric) :=
  metrics ← gets (fun st => metrics_collector (self st));
  match scan metrics key with
  | Some metric =>
      log_call (debug_found (name metric) key);; mret (Some metric)
  | None =>
      log_call (debug_cannot_find key);; mret None
  end.

(** The body of the loop over the three keys in [process_calendar]: the
    metric of the key is looked up and created when missing.  The value is
    the variable [metric] at the end of the iteration, [None] when the
    iteration ended by [continue]. *)
Definition ensure_metric (key : string) : M (option YasnoMetric) :=
  found ← get_metric_by_yasno_key key;
  match found with
  | Some metric => mret (Some metric)
  | None =>
      created ← try_except_YasnoMetricException (YasnoMetric.__init__ key);
      match created with
      | inr error => log_call (error_exception error);; mret None
      | inl metric =>
          log_call (info_created (yasno_key metric) (name metric));;
          modify (fun st =>
            set_metrics_collector (metrics_collector (self st) ++ [metric]) st);;
          mret (Some metric)
      end
  end.

Definition no_power : string := "Світла немає".
Definition possible_outage : string := "Можливе відключення".

(** [requests.get(url)] *)
Definition requests_get (url : string) : M Response :=
  n ← gets get_calls;
  modify tick_get;;
  answer ← asks (fun env => network env n url);
  match answer with
  | Some response => mret response
  | None => raise RequestException
  end.

(** [Calendar.from_ical(data)], as the list its [walk()] returns. *)
Definition Calendar_from_ical (data : string) : M (list component) :=
  parsed ← asks (fun env => from_ical env data);
  match parsed with
  | Some components => mret components
  | None => raise (ValueError data)
  end.

(** [datetime.now()]: the local wall-clock time, without a timezone, given
    by the microseconds its fields count from the fields of the epoch. *)
Definition datetime_now : M Z :=
  n ← gets now_calls;
  modify tick_now;;
  asks (fun env => clock env n + utcoffset env n).

(** [UTC.localize(naive)]: the aware datetime with the fields of [naive] and
    the zone UTC, given by its instant.  The fields are not converted. *)
Definition UTC_localize (naive : Z) : Z := naive.

(** [component.get(property).dt]: an [AttributeError] when what [get]
    returned has no attribute [dt]. *)
Definition get_dt (property : option dt_value) : M dt_value :=
  match property with
  | Some value => mret value
  | None => raise AttributeError
  end.

(** [now > other] and [now < other] for the aware datetime [now]. *)
Definition datetime_gt (now : Z) (other : dt_value) : M bool :=
  match other with
  | datetime_aware instant => mret (instant <? now)
  | not_ordered => raise TypeError
  end.

Definition datetime_lt (now : Z) (other : dt_value) : M bool :=
  match other with
  | datetime_aware instant => mret (now <? instant)
  | not_ordered => raise TypeError
  end.

(** [summary == text] for what [component.get("summary")] returned. *)
Definition summary_is (summary : option string) (text : string) : bool :=
  match summary with
  | Some s => String.eqb s text
  | None => false
  end.

(** The loop over [gcal.walk()]; the value is the pair of the variables
    [blackout] and [possible_blackout] when the loop ends.  [and] evaluates
    [now < end_time] only when [now > start_time] holds. *)
Fixpoint walk_loop (components : list component)
    (blackout possible_blackout : bool) : M (bool * bool) :=
  match components with
  | [] => mret (blackout, possible_blackout)
  | component :: rest =>
      if String.eqb (component_name component) "VEVENT" then
        let summary := summary component in
        naive ← datetime_now;
        let now := UTC_localize naive in
        start_time ← get_dt (dtstart component);
        end_time ← get_dt (dtend component);
        after_start ← datetime_gt now start_time;
        within ← (if (after_start : bool) then datetime_lt now end_time
                  else mret false);
        if (within : bool) then
          if summary_is summary no_power then
            mret (true, possible_blackout)             (* break *)
          else if summary_is summary possible_outage then
            walk_loop rest blackout true
          else walk_loop rest blackout possible_blackout
        else walk_loop rest blackout possible_blackout
      else walk_loop rest blackout possible_blackout
  end.

(** [metric = self.get_metric_by_yasno_key(key); metric.set(value, label)];
    when the lookup returned [False], [metric.set] is an attribute access
    on a [bool]. *)
Definition lookup_and_set (key : string) (value : Z) (label : string)
  : M unit :=
  found ← get_metric_by_yasno_key key;
  match found with
  | Some metric => YasnoMetric.set metric value label
  | None => raise AttributeError
  end.

(** The three values written for the variables [blackout] and
    [possible_blackout], in the order blackout, possible_blackout,
    no_blackout. *)
Definition gauge_values (blackout possible_blackout : bool) : Z * Z * Z :=
  if blackout then (1, 0, 0)
  else if possible_blackout then (0, 1, 0)
  else (0, 0, 1).

Definition write_gauges (blackout possible_blackout : bool)
    (group_name : string) : M unit :=
  let '(b, p, n) := gauge_values blackout possible_blackout in
  w ← gets self;
  lookup_and_set (BLACKOUT w) b group_name;;
  w ← gets self;
  lookup_and_set (POSSIBLE_BLACKOUT w) p group_name;;
  w ← gets self;
  lookup_and_set (NO_BLACKOUT w) n group_name.

Definition group_name (id : nat) : string := "group_" +:+ pretty id.

Definition url (group_name : string) : string :=
  "https://tarik02.github.io/yasno-ics/kyiv/" +:+ group_name +:+ ".ics".

(** The body of the loop over [range(1, 7)]. *)
Definition process_group (id : nat) : M unit :=
  let group_name := group_name id in
  w ← gets self;
  mapM ensure_metric [BLACKOUT w; POSSIBLE_BLACKOUT w; NO_BLACKOUT w];;
  response ← requests_get (url group_name);
  let data := content response in
  gcal ← Calendar_from_ical data;
  '(blackout, possible_blackout) ← walk_loop gcal false false;
  write_gauges blackout possible_blackout group_name.

Fixpoint for_each (ids : list nat) (body : nat → M unit) : M unit :=
  match ids with
  | [] => mret tt
  | id :: rest => body id;; for_each rest body
  end.

Definition process_calendar : M unit := for_each (seq 1 6) process_group.

(** [time.sleep(seconds)] for an integer changes nothing the exporter
    observes; it raises when the length in nanoseconds does not fit 64 bits
    and when the length is negative. *)
Definition time_sleep (seconds : Z) : M unit :=
  if (seconds <? -9223372036) || (9223372036 <? seconds) then raise OverflowError
  else if seconds <? 0
  then raise (ValueError "sleep length must be non-negative")
  else mret tt.

(** The first [n] iterations of [while True] in [loop]: [Ok] when the loop
    is still running after them, [Raise] when an exception left it. *)
Fixpoint loop (n : nat) : M unit :=
  match n with
  | O => mret tt
  | S n' =>
      process_calendar;;
      seconds ← gets (fun st => collecting_interval_seconds (self st));
      time_sleep seconds;;
      loop n'
  end.

End Worker.

(** The state in which [main] enters [loop]: every default collector was
  unregistered, the worker is new. *)
Definition main_state (collecting_interval_seconds : Z) : state :=
  {| self := Worker.__init__ collecting_interval_seconds;
     REGISTRY := ∅; log := []; now_calls := 0; get_calls := 0; allocated := 0 |}.

(** ** The name derivation as the specification words it

  Replace every [.] with [_]; lower-case the first character; for each
  later character, put a [_] before its lower-cased form exactly when the
  character is an upper-case letter and the last character put out so far
  is not [_]. *)

Fixpoint spec_derive_rest (last_out : ascii) (rest : string) : string :=
  match rest with
  | EmptyString => EmptyString
  | String c rest' =>
      let out := String (Str.lower c) (spec_derive_rest (Str.lower c) rest') in
      if Str.isupper c && negb (Ascii.eqb last_out "_")
      then String "_" out
      else out
  end.

Definition spec_derive (key : string) : string :=
  match Str.replace_dot key with
  | EmptyString => EmptyString
  | String c rest => String (Str.lower c) (spec_derive_rest (Str.lower c) rest)
  end.

(** A string the derivation leaves alone: no upper-case letter, no dot. *)
Definition settled (s : string) : Prop :=
  Forall (fun c => Str.isupper c = false ∧ c ≠ "."%char) (Str.chars s).

(** ** Vocabulary of the properties *)

(** The metrics library accepts at least the identifiers of the Prometheus
    data model, whatever else it accepts. *)
Definition accepts_identifiers (env : environment) : Prop :=
  ∀ n : string, Re.fullmatch n = true → valid_metric_name env n = true.

(** The worker has the three keys [Worker.__init__] gives it. *)
Definition builtin_keys (w : Worker) : Prop :=
  BLACKOUT w = "blackout" ∧ POSSIBLE_BLACKOUT w = "possible_blackout"
  ∧ NO_BLACKOUT w = "no_blackout".

(** No metric was created yet and no gauge of the three names exists. *)
Definition fresh (st : state) : Prop :=
  metrics_collector (self st) = []
  ∧ REGISTRY st !! "yasno_blackout" = None
  ∧ REGISTRY st !! "yasno_possible_blackout" = None
  ∧ REGISTRY st !! "yasno_no_blackout" = None.

(** The three metrics exist, in the order of their creation. *)
Definition ready (st : state) : Prop :=
  ∃ i j k : nat,
    metrics_collector (self st) =
      [ {| obj := i; yasno_key := "blackout"; name := "yasno_blackout" |};
        {| obj := j; yasno_key := "possible_blackout";
           name := "yasno_possible_blackout" |};
        {| obj := k; yasno_key := "no_blackout"; name := "yasno_no_blackout" |} ].

(** The states of a running exporter. *)
Definition inv (st : state) : Prop :=
  builtin_keys (self st) ∧ (fresh st ∨ ready st).

(** The samples of the three gauges at one label value. *)
Definition status_samples (r : gmap string (gmap string Z)) (label : string)
  : option Z * option Z * option Z :=
  (sample r "yasno_blackout" label,
   sample r "yasno_possible_blackout" label,
   sample r "yasno_no_blackout" label).

(** Exactly one of the three gauges holds 1 at [label], the others hold 0. *)
Definition exactly_one (r : gmap string (gmap string Z)) (label : string) : Prop :=
  status_samples r label = (Some 1, Some 0, Some 0)
  ∨ status_samples r label = (Some 0, Some 1, Some 0)
  ∨ status_samples r label = (Some 0, Some 0, Some 1).

(** No sample differs between the two registries. *)
Definition same_samples (r r' : gmap string (gmap string Z)) : Prop :=
  ∀ n l : string, sample r' n l = sample r n l.

(** No sample at a label value other than [label] differs. *)
Definition same_samples_off (label : string) (r r' : gmap string (gmap string Z))
  : Prop :=
  ∀ n l : string, l ≠ label → sample r' n l = sample r n l.

(** A property of the state that [m] keeps, whatever its outcome. *)
Definition keeps {A : Type} (P : state → Prop) (m : M A) : Prop :=
  ∀ (env : environment) (st : state), P st → P (snd (m env st)).

(** [st] once [ensure_metric] has created [m] and appended it. *)
Definition with_new_metric (m : YasnoMetric) (st : state) : state :=
  set_metrics_collector (metrics_collector (self st) ++ [m])
    (add_log (info_created (yasno_key m) (name m))
       (set_REGISTRY (registry_add (name m) (REGISTRY st))
          (tick_allocated (add_log (debug_cannot_find (yasno_key m)) st)))).

(** The registry once the three values are written at [label]. *)
Definition registry_written (values : Z * Z * Z) (label : string)
    (r : gmap string (gmap string Z)) : gmap string (gmap string Z) :=
  let '(b, p, n) := values in
  registry_set "yasno_no_blackout" label n
    (registry_set "yasno_possible_blackout" label p
       (registry_set "yasno_blackout" label b r)).

(** The records of [log.error] in the log. *)
Definition is_error (r : log_record) : bool :=
  match r with
  | error_exception _ => true
  | _ => false
  end.

Definition errors_logged (st : state) : list log_record :=
  List.filter is_error (log st).

(** A property of the state that looks at the worker only. *)
Definition worker_only (P : state → Prop) : Prop :=
  ∀ st st' : state, self st' = self st → P st → P st'.

(** The keys of the metrics held by the worker. *)
Definition collector_keys (st : state) : list string :=
  yasno_key <$> metrics_collector (self st).

(** The event [c] is active at [now]: an event with an aware start and an
    aware end, [now] strictly between them. *)
Definition active (now : Z) (c : component) : bool :=
  String.eqb (component_name c) "VEVENT"
  && match dtstart c, dtend c with
     | Some (datetime_aware s), Some (datetime_aware e) => (s <? now) && (now <? e)
     | _, _ => false
     end.

(** The component is a calendar event of the data model when it is an event
    at all: it has a start and an end, both timezone-aware. *)
Definition well_timed (c : component) : bool :=
  negb (String.eqb (component_name c) "VEVENT")
  || match dtstart c, dtend c with
     | Some (datetime_aware _), Some (datetime_aware _) => true
     | _, _ => false
     end.

(** ** The single-instant evaluator of the specification

    [now] is taken once; the events are visited in order; an active event
    with the "no power" summary sets [blackout] and stops the scan, one with
    the "possible outage" summary sets [possible_blackout]. *)
Fixpoint spec_evaluate (now : Z) (events : list component)
    (blackout possible_blackout : bool) : bool * bool :=
  match events with
  | [] => (blackout, possible_blackout)
  | c :: rest =>
      if active now c then
        if Worker.summary_is (summary c) Worker.no_power
        then (true, possible_blackout)
        else if Worker.summary_is (summary c) Worker.possible_outage
             then spec_evaluate now rest blackout true
             else spec_evaluate now rest blackout possible_blackout
      else spec_evaluate now rest blackout possible_blackout
  end.

(** The state by precedence, on the events as a set: blackout when some
    active event says "no power", else possible_blackout when some active
    event says "possible outage", else no_blackout. *)
Definition spec_status (now : Z) (events : list component) : Z * Z * Z :=
  if existsb (fun c => active now c
                      && Worker.summary_is (summary c) Worker.no_power) events
  then (1, 0, 0)
  else if existsb (fun c => active now c
                           && Worker.summary_is (summary c) Worker.possible_outage)
            events
  then (0, 1, 0)
  else (0, 0, 1).

(** The environment [env] with the status of every response changed by
    [f]. *)
Definition restatus (f : Z → Z) (env : environment) : environment :=
  {| valid_metric_name := valid_metric_name env;
     clock := clock env;
     utcoffset := utcoffset env;
     network := fun n u =>
       match network env n u with
       | Some response =>
           Some {| status_code := f (status_code response);
                   content := content response |}
       | None => None
       end;
     from_ical := from_ical env |}.

(** [m] never ends with a [YasnoMetricException]. *)
Definition contains_YasnoMetricException {A : Type} (m : M A) : Prop :=
  ∀ (env : environment) (st : state) (key : string),
    fst (m env st) ≠ Raise (YasnoMetricException key).



(** The metric [m] is the one the worker finds for [key]. *)
Definition found (key : string) (m : YasnoMetric) (st : state) : Prop :=
  Worker.scan (metrics_collector (self st)) key = Some m.

(** The value of [now] at the reading number [k]. *)
Definition reading (env : environment) (k : nat) : Z :=
  Worker.UTC_localize (clock env k + utcoffset env k).

(** What one visit of the event [c] at the reading [now] computes for
    [now > start_time and now < end_time], exceptions included. *)
Definition within_event (now : Z) (c : component) : result bool :=
  match dtstart c with
  | None => Raise AttributeError
  | Some start_time =>
      match dtend c with
      | None => Raise AttributeError
      | Some end_time =>
          match start_time with
          | not_ordered => Raise TypeError
          | datetime_aware s =>
              if s <? now then
                match end_time with
                | not_ordered => Raise TypeError
                | datetime_aware e => Ok (now <? e)
                end
              else Ok false
          end
      end
  end.

(** The number of events among the components. *)
Definition count_events (components : list component) : nat :=
  length (filter (fun c => String.eqb (component_name c) "VEVENT" = true) components).

(** [st] after [k] more readings of the clock. *)
Definition advance_now (k : nat) (st : state) : state :=
  {| self := self st; REGISTRY := REGISTRY st; log := log st;
     now_calls := now_calls st + k; get_calls := get_calls st;
     allocated := allocated st |}.

(** ** Concrete inputs *)

(** An event component. *)
Definition event (summary : string) (dtstart dtend : Z) : component :=
  {| component_name := "VEVENT"; summary := Some summary;
     dtstart := Some (datetime_aware dtstart);
     dtend := Some (datetime_aware dtend) |}.

(** An environment in which the library accepts the identifiers of the data
    model only, every request is answered with status [status] and every
    body parses to [feed]. *)
Definition plain_env (clock : nat → Z) (status : Z) (feed : list component)
  : environment :=
  {| valid_metric_name := Re.fullmatch;
     clock := clock;
     utcoffset := fun _ => 0;
     network := fun _ u => Some {| status_code := status; content := u |};
     from_ical := fun _ => Some feed |}.

(** An environment like [plain_env] whose metrics library accepts every
    name, as the versions that admit UTF-8 names do. *)
Definition lenient_env (clock : nat → Z) (status : Z) (feed : list component)
  : environment :=
  {| valid_metric_name := fun _ => true;
     clock := clock;
     utcoffset := fun _ => 0;
     network := fun _ u => Some {| status_code := status; content := u |};
     from_ical := fun _ => Some feed |}.

(** An environment like [plain_env] in which the request number [k] (from
    0) raises. *)
Definition outage_env (k : nat) (feed : list component) : environment :=
  {| valid_metric_name := Re.fullmatch;
     clock := fun _ => 0;
     utcoffset := fun _ => 0;
     network := fun n u =>
       if Nat.eqb n k then None
       else Some {| status_code := 200; content := u |};
     from_ical := fun _ => Some feed |}.

(** An environment like [plain_env] in which the request number [k] is
    answered with status 500 and a body that is no calendar. *)
Definition garbled_env (k : nat) (feed : list component) : environment :=
  {| valid_metric_name := Re.fullmatch;
     clock := fun _ => 0;
     utcoffset := fun _ => 0;
     network := fun n u =>
       if Nat.eqb n k
       then Some {| status_code := 500; content := "Internal Server Error" |}
       else Some {| status_code := 200; content := u |};
     from_ical := fun data =>
       if String.eqb data "Internal Server Error" then None else Some feed |}.

(** A worker whose first key has a derived name that starts with a digit. *)
Definition odd_worker : Worker :=
  {| collecting_interval_seconds := 300;
     metrics_collector := [];
     BLACKOUT := "1blackout";
     POSSIBLE_BLACKOUT := "possible_blackout";
     NO_BLACKOUT := "no_blackout" |}.

Definition odd_state : state :=
  {| self := odd_worker; REGISTRY := ∅; log := []; now_calls := 0;
     get_calls := 0; allocated := 0 |}.

(** An environment like [plain_env] on a machine whose local time is
    [offset] ahead of UTC. *)
Definition zoned_env (offset : Z) (clock : nat → Z) (feed : list component)
  : environment :=
  {| valid_metric_name := Re.fullmatch;
     clock := clock;
     utcoffset := fun _ => offset;
     network := fun _ u => Some {| status_code := 200; content := u |};
     from_ical := fun _ => Some feed |}.

(** Two events over the same interval, "no power" first. *)
Definition overlapping_feed : list component :=
  [event Worker.no_power 5 10; event Worker.possible_outage 5 10].

(** ** Vocabulary of the further properties *)

(** A component that can change the outcome of the scan at [now]: an active
    event with one of the two summaries the scan knows. *)
Definition relevant (now : Z) (c : component) : bool :=
  active now c
  && (Worker.summary_is (summary c) Worker.no_power
      || Worker.summary_is (summary c) Worker.possible_outage).

(** A property of the state that looks at neither the log nor the
    registry. *)
Definition log_registry_blind (P : state → Prop) : Prop :=
  (∀ (r : log_record) (st : state), P st → P (add_log r st))
  ∧ (∀ (r : gmap string (gmap string Z)) (st : state), P st → P (set_REGISTRY r st)).

(** * Properties of the name derivation *)

Section NameDerivation.

Local Ltac each_char c :=
  destruct c as [[] [] [] [] [] [] [] []]; vm_compute; try done.

Lemma lower_not_upper (c : ascii) : Str.isupper (Str.lower c) = false.
Proof. each_char c. Qed.

Lemma lower_fixed (c : ascii) : Str.isupper c = false → Str.lower c = c.
Proof. unfold Str.lower. by intros ->. Qed.

Lemma lower_dot (c : ascii) : Str.lower c = "."%char → c = "."%char.
Proof. each_char c. Qed.

Lemma append_String (c : ascii) (s t : string) :
  String c s +:+ t = String c (s +:+ t).
Proof. reflexivity. Qed.

Lemma append_Empty_l (t : string) : EmptyString +:+ t = t.
Proof. reflexivity. Qed.

Lemma append_Empty_r (s : string) : s +:+ EmptyString = s.
Proof.
  induction s as [|c s IH]; [done |]. by rewrite append_String, IH.
Qed.

Lemma append_assoc (s1 s2 s3 : string) :
  (s1 +:+ s2) +:+ s3 = s1 +:+ (s2 +:+ s3).
Proof.
  induction s1 as [|c s1 IH]; [done |]. by rewrite !append_String, IH.
Qed.

Lemma last_append_char (s : string) (c : ascii) :
  Str.last (s +:+ Str.of_char c) = Ok c.
Proof.
  induction s as [|d s IH]; [done |].
  rewrite append_String. simpl. rewrite IH.
  destruct s; [done |]. by rewrite append_String.
Qed.

Lemma convert_loop_body_spec (new : string) (l c : ascii) :
  Str.last new = Ok l →
  YasnoMetric.convert_loop_body new c =
    Ok ((if Str.isupper c && negb (Ascii.eqb l "_") then new +:+ "_" else new)
        +:+ Str.of_char (Str.lower c)).
Proof.
  intros Hl. unfold YasnoMetric.convert_loop_body.
  destruct (Str.isupper c); simpl; [| done].
  rewrite Hl. simpl. by destruct (Ascii.eqb l "_").
Qed.

(** The loop of the source, which grows [new] at its end and reads
    [new[-1]], computes what the rule says, which looks at the last
    character put out. *)
Lemma convert_loop_spec (rest new : string) (l : ascii) :
  Str.last new = Ok l →
  YasnoMetric.convert_loop new (Str.chars rest) =
    Ok (new +:+ spec_derive_rest l rest).
Proof.
  revert new l. induction rest as [|c rest IH]; intros new l Hl; simpl.
  - by rewrite append_Empty_r.
  - rewrite (convert_loop_body_spec new l c Hl). simpl.
    rewrite (IH _ (Str.lower c)) by apply last_append_char.
    f_equal. destruct (Str.isupper c && negb (Ascii.eqb l "_"));
      rewrite !append_assoc; done.
Qed.

Lemma derived_form_spec (key : string) :
  key ≠ EmptyString → YasnoMetric.derived_form key = Ok (spec_derive key).
Proof.
  intros Hne. unfold YasnoMetric.derived_form, spec_derive.
  destruct key as [|c key]; [done |]. simpl.
  by rewrite (convert_loop_spec _ _ (Str.lower (if Ascii.eqb c "." then "_"%char else c))).
Qed.

Lemma derived_form_empty : YasnoMetric.derived_form EmptyString = Raise IndexError.
Proof. reflexivity. Qed.

Lemma replace_dot_settled (s : string) : settled s → Str.replace_dot s = s.
Proof.
  unfold settled. induction s as [|c s IH]; simpl; [done |].
  intros H. apply Forall_cons in H as [[_ Hdot] Hs]. rewrite (IH Hs).
  destruct (Ascii.eqb_spec c "."); [done | done].
Qed.

Lemma spec_derive_rest_settled (l : ascii) (s : string) :
  settled s → spec_derive_rest l s = s.
Proof.
  unfold settled. revert l. induction s as [|c s IH]; intros l H; simpl; [done |].
  apply Forall_cons in H as [[Hup _] Hs].
  rewrite Hup, (lower_fixed c Hup), (IH _ Hs). done.
Qed.

Lemma spec_derive_settled (s : string) : settled s → spec_derive s = s.
Proof.
  intros H. unfold spec_derive. rewrite (replace_dot_settled s H).
  destruct s as [|c s]; [done |].
  apply Forall_cons in H as [[Hup _] Hs].
  by rewrite (lower_fixed c Hup), (spec_derive_rest_settled _ _ Hs).
Qed.

Lemma replace_dot_no_dot (s : string) :
  Forall (fun c => c ≠ "."%char) (Str.chars (Str.replace_dot s)).
Proof.
  induction s as [|c s IH]; simpl; constructor; [| done].
  destruct (Ascii.eqb_spec c "."); [done | done].
Qed.

Lemma spec_derive_rest_is_settled (l : ascii) (s : string) :
  Forall (fun c => c ≠ "."%char) (Str.chars s) → settled (spec_derive_rest l s).
Proof.
  unfold settled. revert l. induction s as [|c s IH]; intros l H; simpl.
  { constructor. }
  apply Forall_cons in H as [Hc Hs].
  assert (Hout : Forall (fun c => Str.isupper c = false ∧ c ≠ "."%char)
                   (Str.chars (String (Str.lower c) (spec_derive_rest (Str.lower c) s)))).
  { simpl. constructor; [| by apply IH].
    split; [apply lower_not_upper |]. intros Heq. by apply Hc, lower_dot. }
  destruct (Str.isupper c && negb (Ascii.eqb l "_")); [| done].
  simpl. constructor; [done |]. exact Hout.
Qed.

(** What the derivation puts out has no upper-case letter and no dot. *)
Lemma spec_derive_is_settled (key : string) : settled (spec_derive key).
Proof.
  unfold spec_derive. pose proof (replace_dot_no_dot key) as H.
  destruct (Str.replace_dot key) as [|c s]; [constructor |].
  simpl in H. apply Forall_cons in H as [Hc Hs].
  unfold settled. simpl. constructor.
  - split; [apply lower_not_upper |]. intros Heq. by apply Hc, lower_dot.
  - by apply spec_derive_rest_is_settled.
Qed.

Lemma spec_derive_nonempty (key : string) :
  key ≠ EmptyString → spec_derive key ≠ EmptyString.
Proof. unfold spec_derive. by destruct key. Qed.

Lemma derived_form_ok (key new : string) :
  YasnoMetric.derived_form key = Ok new →
  key ≠ EmptyString ∧ new = spec_derive key.
Proof.
  destruct key as [|c key]; [done |]. intros H.
  rewrite derived_form_spec in H by done. by inversion H.
Qed.

(** The name conversion in one equation: an [IndexError] for the empty key,
    otherwise the check of the derived form. *)
Lemma convert_unfold (key : string) :
  YasnoMetric.convert_yasno_key_to_prometheus_name key =
    match key with
    | EmptyString => Raise IndexError
    | String _ _ =>
        if bool_decide (is_Some (Re.re_match (spec_derive key)))
        then Ok (spec_derive key)
        else Raise (YasnoMetricException key)
    end.
Proof.
  unfold YasnoMetric.convert_yasno_key_to_prometheus_name.
  destruct key as [|c key]; [done |].
  rewrite derived_form_spec by done. unfold mbind, result_bind.
  by destruct (bool_decide (is_Some (Re.re_match (spec_derive (String c key))))).
Qed.

Lemma convert_ok (key new : string) :
  YasnoMetric.convert_yasno_key_to_prometheus_name key = Ok new →
  key ≠ EmptyString ∧ new = spec_derive key ∧ is_Some (Re.re_match new).
Proof.
  rewrite convert_unfold. destruct key as [|c key]; [done |].
  case_bool_decide as Hm; [| done]. intros [= <-]. done.
Qed.

(** The pattern is tested at the start of the name only: the match depends
    on the first character alone. *)
Lemma re_match_head (c : ascii) (s : string) :
  is_Some (Re.re_match (String c s)) ↔ Re.head_class c = true.
Proof.
  simpl. destruct (Re.head_class c); split; intros H; try done.
Qed.

End NameDerivation.

(** * Running the monad *)

Section Run.

Context {A B : Type}.

Lemma run_bind (m : M A) (f : A → M B) (env : environment) (st : state) :
  (m ≫= f) env st =
    match m env st with
    | (Ok a, st') => f a env st'
    | (Raise e, st') => (Raise e, st')
    end.
Proof. reflexivity. Qed.

Lemma run_ret (a : A) (env : environment) (st : state) :
  (mret a : M A) env st = (Ok a, st).
Proof. reflexivity. Qed.

Lemma run_gets (f : state → A) (env : environment) (st : state) :
  gets f env st = (Ok (f st), st).
Proof. reflexivity. Qed.

Lemma run_asks (f : environment → A) (env : environment) (st : state) :
  asks f env st = (Ok (f env), st).
Proof. reflexivity. Qed.

Lemma run_raise (e : exception) (env : environment) (st : state) :
  (raise e : M A) env st = (Raise e, st).
Proof. reflexivity. Qed.

Lemma run_lift (r : result A) (env : environment) (st : state) :
  lift r env st = (r, st).
Proof. reflexivity. Qed.

End Run.

Lemma run_modify (f : state → state) (env : environment) (st : state) :
  modify f env st = (Ok tt, f st).
Proof. reflexivity. Qed.

Lemma run_log_call (r : log_record) (env : environment) (st : state) :
  log_call r env st = (Ok tt, add_log r st).
Proof. reflexivity. Qed.

Ltac run :=
  repeat first
    [ rewrite run_bind | rewrite run_ret | rewrite run_gets | rewrite run_asks
    | rewrite run_raise | rewrite run_lift | rewrite run_modify
    | rewrite run_log_call ].


(** * The methods, one equation each *)

Section Methods.

Variable env : environment.

Lemma Gauge_run (n : string) (st : state) :
  Gauge n env st =
    if negb (valid_metric_name env n) then (Raise (ValueError n), st)
    else if decide (is_Some (REGISTRY st !! n)) then (Raise (ValueError n), st)
    else (Ok tt, set_REGISTRY (registry_add n (REGISTRY st)) st).
Proof. reflexivity. Qed.

Lemma init_run (key : string) (st : state) :
  YasnoMetric.__init__ key env st =
    match YasnoMetric.convert_yasno_key_to_prometheus_name key with
    | Raise e => (Raise e, tick_allocated st)
    | Ok derived =>
        let n := "yasno_" +:+ derived in
        if negb (valid_metric_name env n)
        then (Raise (ValueError n), tick_allocated st)
        else if decide (is_Some (REGISTRY st !! n))
        then (Raise (ValueError n), tick_allocated st)
        else (Ok {| obj := allocated st; yasno_key := key; name := n |},
              set_REGISTRY (registry_add n (REGISTRY st)) (tick_allocated st))
    end.
Proof.
  unfold YasnoMetric.__init__. run.
  destruct (YasnoMetric.convert_yasno_key_to_prometheus_name key) as [derived|e];
    [| done].
  run. rewrite Gauge_run. simpl.
  destruct (negb (valid_metric_name env ("yasno_" +:+ derived))); [done |].
  by destruct (decide (is_Some (REGISTRY st !! ("yasno_" +:+ derived)))).
Qed.

Lemma float_of_int_exact (value : Z) :
  Z.abs value < 2 ^ 53 → float_of_int value = Ok value.
Proof.
  intros H. unfold float_of_int.
  by destruct (Z.ltb_spec (Z.abs value) (2 ^ 53)); [| lia].
Qed.

Lemma set_run_float (metric : YasnoMetric) (value : Z) (label : string) (st : state) :
  YasnoMetric.set metric value label env st =
    match float_of_int value with
    | Ok stored =>
        (Ok tt,
         set_REGISTRY (registry_set (name metric) label stored (REGISTRY st))
           (add_log (debug_set (name metric) value label) st))
    | Raise e => (Raise e, add_log (debug_set (name metric) value label) st)
    end.
Proof.
  unfold YasnoMetric.set, Gauge_labels_set. run.
  by destruct (float_of_int value).
Qed.

Lemma set_run (metric : YasnoMetric) (value : Z) (label : string) (st : state) :
  Z.abs value < 2 ^ 53 →
  YasnoMetric.set metric value label env st =
    (Ok tt,
     set_REGISTRY (registry_set (name metric) label value (REGISTRY st))
       (add_log (debug_set (name metric) value label) st)).
Proof. intros H. by rewrite set_run_float, float_of_int_exact. Qed.

Lemma get_metric_by_yasno_key_run (key : string) (st : state) :
  Worker.get_metric_by_yasno_key key env st =
    (Ok (Worker.scan (metrics_collector (self st)) key),
     add_log (match Worker.scan (metrics_collector (self st)) key with
              | Some metric => debug_found (name metric) key
              | None => debug_cannot_find key
              end) st).
Proof.
  unfold Worker.get_metric_by_yasno_key. run.
  destruct (Worker.scan (metrics_collector (self st)) key); by run.
Qed.

Lemma ensure_metric_run (key : string) (st : state) :
  Worker.ensure_metric key env st =
    match Worker.scan (metrics_collector (self st)) key with
    | Some metric => (Ok (Some metric), add_log (debug_found (name metric) key) st)
    | None =>
        match YasnoMetric.__init__ key env (add_log (debug_cannot_find key) st) with
        | (Ok metric, st') =>
            (Ok (Some metric),
             set_metrics_collector (metrics_collector (self st') ++ [metric])
               (add_log (info_created (yasno_key metric) (name metric)) st'))
        | (Raise (YasnoMetricException k), st') =>
            (Ok None, add_log (error_exception (YasnoMetricException k)) st')
        | (Raise e, st') => (Raise e, st')
        end
    end.
Proof.
  unfold Worker.ensure_metric. rewrite run_bind, get_metric_by_yasno_key_run.
  destruct (Worker.scan (metrics_collector (self st)) key) as [metric|]; [done |].
  rewrite run_bind. unfold try_except_YasnoMetricException.
  destruct (YasnoMetric.__init__ key env (add_log (debug_cannot_find key) st))
    as [[metric|e] st']; [by run |].
  destruct e; by run.
Qed.

Lemma lookup_and_set_run (key : string) (value : Z) (label : string) (st : state) :
  Worker.lookup_and_set key value label env st =
    match Worker.scan (metrics_collector (self st)) key with
    | Some metric =>
        YasnoMetric.set metric value label env
          (add_log (debug_found (name metric) key) st)
    | None => (Raise AttributeError, add_log (debug_cannot_find key) st)
    end.
Proof.
  unfold Worker.lookup_and_set. rewrite run_bind, get_metric_by_yasno_key_run.
  by destruct (Worker.scan (metrics_collector (self st)) key).
Qed.

Lemma requests_get_run (u : string) (st : state) :
  Worker.requests_get u env st =
    (match network env (get_calls st) u with
     | Some response => Ok response
     | None => Raise RequestException
     end, tick_get st).
Proof.
  unfold Worker.requests_get. run.
  by destruct (network env (get_calls st) u).
Qed.

Lemma Calendar_from_ical_run (data : string) (st : state) :
  Worker.Calendar_from_ical data env st =
    (match from_ical env data with
     | Some components => Ok components
     | None => Raise (ValueError data)
     end, st).
Proof.
  unfold Worker.Calendar_from_ical. run. by destruct (from_ical env data).
Qed.

Lemma datetime_now_run (st : state) :
  Worker.datetime_now env st =
    (Ok (clock env (now_calls st) + utcoffset env (now_calls st)), tick_now st).
Proof. unfold Worker.datetime_now. by run. Qed.

End Methods.

(** * The evaluator *)

Section Evaluator.

Variable env : environment.

Lemma advance_now_0 (st : state) : advance_now 0 st = st.
Proof. destruct st. unfold advance_now. simpl. by rewrite Nat.add_0_r. Qed.

Lemma advance_now_tick (k : nat) (st : state) :
  advance_now k (tick_now st) = advance_now (S k) st.
Proof. unfold advance_now, tick_now. simpl. f_equal. lia. Qed.

Lemma count_events_cons (c : component) (cs : list component) :
  count_events (c :: cs) =
    ((if String.eqb (component_name c) "VEVENT" then 1 else 0) + count_events cs)%nat.
Proof.
  unfold count_events. rewrite filter_cons.
  by destruct (String.eqb (component_name c) "VEVENT").
Qed.

Lemma walk_loop_cons (c : component) (rest : list component) (b p : bool)
    (st : state) :
  Worker.walk_loop (c :: rest) b p env st =
    if String.eqb (component_name c) "VEVENT" then
      match within_event (reading env (now_calls st)) c with
      | Raise e => (Raise e, tick_now st)
      | Ok true =>
          if Worker.summary_is (summary c) Worker.no_power
          then (Ok (true, p), tick_now st)
          else if Worker.summary_is (summary c) Worker.possible_outage
               then Worker.walk_loop rest b true env (tick_now st)
               else Worker.walk_loop rest b p env (tick_now st)
      | Ok false => Worker.walk_loop rest b p env (tick_now st)
      end
    else Worker.walk_loop rest b p env st.
Proof.
  cbn [Worker.walk_loop].
  destruct (String.eqb (component_name c) "VEVENT"); [| done].
  rewrite run_bind, datetime_now_run.
  change (Worker.UTC_localize (clock env (now_calls st) + utcoffset env (now_calls st)))
    with (reading env (now_calls st)).
  unfold within_event, Worker.get_dt.
  destruct (dtstart c) as [[s|]|], (dtend c) as [[e|]|];
    unfold Worker.datetime_gt, Worker.datetime_lt; run; try done.
  - destruct (s <? reading env (now_calls st)); run; [| done].
    destruct (reading env (now_calls st) <? e); [| done].
    destruct (Worker.summary_is (summary c) Worker.no_power); [done |].
    by destruct (Worker.summary_is (summary c) Worker.possible_outage).
  - by destruct (s <? reading env (now_calls st)); run.
Qed.

(** An event visited without an exception is within its times exactly when
    it is active. *)
Lemma within_event_active (now : Z) (c : component) (w : bool) :
  String.eqb (component_name c) "VEVENT" = true →
  within_event now c = Ok w → active now c = w.
Proof.
  intros Hev. unfold within_event, active. rewrite Hev. simpl.
  destruct (dtstart c) as [[s|]|], (dtend c) as [[e|]|]; try done.
  - destruct (s <? now); simpl; congruence.
  - destruct (s <? now); simpl; congruence.
Qed.

Lemma within_event_well_timed (now : Z) (c : component) :
  String.eqb (component_name c) "VEVENT" = true →
  well_timed c = true → within_event now c = Ok (active now c).
Proof.
  intros Hev. unfold within_event, active, well_timed. rewrite Hev. simpl.
  destruct (dtstart c) as [[s|]|], (dtend c) as [[e|]|]; try done.
  intros _. by destruct (s <? now).
Qed.

(** The scan reads the clock once for each event it visits, whether it ends
    normally or with an exception; it ends normally when every event has its
    two aware times; and when it ends normally and the readings it took are
    all the instant [now], it computes what the single-instant evaluator
    computes at [now]. *)
Lemma walk_loop_run (cs : list component) (p : bool) (st : state) :
  ∃ (r : result (bool * bool)) (k : nat),
    Worker.walk_loop cs false p env st = (r, advance_now k st)
    ∧ (k ≤ count_events cs)%nat
    ∧ (∀ v : bool * bool, r = Ok v → fst v = false → k = count_events cs)
    ∧ (forallb well_timed cs = true → ∃ v : bool * bool, r = Ok v)
    ∧ ∀ (now : Z) (v : bool * bool),
        (∀ j : nat, (j < k)%nat → reading env (now_calls st + j) = now) →
        r = Ok v → v = spec_evaluate now cs false p.
Proof.
  revert p st. induction cs as [|c cs IH]; intros p st.
  { exists (Ok (false, p)), 0%nat. cbn [Worker.walk_loop]. rewrite advance_now_0. run.
    split; [done |]. split; [done |]. split; [done |]. split; [by eexists |].
    intros now v _ [= <-]. done. }
  rewrite count_events_cons, walk_loop_cons.
  cbn [spec_evaluate forallb].
  destruct (String.eqb (component_name c) "VEVENT") eqn:Hev.
  2:{ destruct (IH p st) as (r & k & Hrun & Hle & Hall & Hok & Hspec).
      exists r, k. split; [done |]. split; [done |]. split; [done |].
      split; [intros [_ H]%andb_prop; by apply Hok |].
      intros now v H Hr. unfold active. rewrite Hev. simpl. by apply Hspec. }
  set (now0 := reading env (now_calls st)).
  assert (Hnow0 : ∀ (k : nat) (now : Z),
            (∀ j : nat, (j < S k)%nat → reading env (now_calls st + j) = now) →
            now0 = now).
  { intros k now H. unfold now0. rewrite <- (H 0%nat) by lia.
    by rewrite Nat.add_0_r. }
  assert (Hrest : ∀ p' : bool,
    ∃ (r : result (bool * bool)) (k : nat),
      Worker.walk_loop cs false p' env (tick_now st) = (r, advance_now k st)
      ∧ (k ≤ S (count_events cs))%nat
      ∧ (∀ v : bool * bool, r = Ok v → fst v = false → k = S (count_events cs))
      ∧ (forallb well_timed cs = true → ∃ v : bool * bool, r = Ok v)
      ∧ ∀ (now : Z) (v : bool * bool),
          (∀ j : nat, (j < k)%nat → reading env (now_calls st + j) = now) →
          r = Ok v → now0 = now ∧ v = spec_evaluate now cs false p').
  { intros p'.
    destruct (IH p' (tick_now st)) as (r & k & Hrun & Hle & Hall & Hok & Hspec).
    exists r, (S k). rewrite Hrun, advance_now_tick.
    split; [done |]. split; [lia |].
    split; [intros v Hr H; by rewrite (Hall v Hr H) |]. split; [done |].
    intros now v H Hr. split; [by apply (Hnow0 k) |].
    apply Hspec; [| done]. intros j Hj. cbn [now_calls tick_now].
    rewrite <- (H (S j)) by lia. f_equal. lia. }
  destruct (within_event now0 c) as [w|e] eqn:Hw.
  2:{ exists (Raise e), 1%nat. rewrite <- advance_now_tick, advance_now_0.
      split; [done |]. split; [lia |]. split; [done |].
      split; [| done]. intros [Hc _]%andb_prop.
      by rewrite (within_event_well_timed now0 c Hev Hc) in Hw. }
  apply (within_event_active now0 c w Hev) in Hw.
  assert (Htimed : forallb well_timed cs = true →
                   well_timed c && forallb well_timed cs = true → True) by done.
  destruct w.
  - destruct (Worker.summary_is (summary c) Worker.no_power) eqn:Hnp.
    + exists (Ok (true, p)), 1%nat. rewrite <- advance_now_tick, advance_now_0.
      split; [done |]. split; [lia |]. split; [by intros v [= <-] |].
      split; [by eexists |].
      intros now v H [= <-]. by rewrite <- (Hnow0 0%nat now H), Hw.
    + destruct (Worker.summary_is (summary c) Worker.possible_outage) eqn:Hpo.
      * destruct (Hrest true) as (r & k & Hrun & Hle & Hall & Hok & Hspec).
        exists r, k. split; [done |]. split; [done |]. split; [done |].
        split; [intros [_ H]%andb_prop; by apply Hok |].
        intros now v H Hr. destruct (Hspec now v H Hr) as [<- ->].
        by rewrite Hw.
      * destruct (Hrest p) as (r & k & Hrun & Hle & Hall & Hok & Hspec).
        exists r, k. split; [done |]. split; [done |]. split; [done |].
        split; [intros [_ H]%andb_prop; by apply Hok |].
        intros now v H Hr. destruct (Hspec now v H Hr) as [<- ->].
        by rewrite Hw.
  - destruct (Hrest p) as (r & k & Hrun & Hle & Hall & Hok & Hspec).
    exists r, k. split; [done |]. split; [done |]. split; [done |].
    split; [intros [_ H]%andb_prop; by apply Hok |].
    intros now v H Hr. destruct (Hspec now v H Hr) as [<- ->].
    by rewrite Hw.
Qed.

(** A "no power" event that is active at every reading the scan can take
    sets [blackout], whatever else the calendar holds and however the clock
    moves between the readings. *)
Lemma walk_loop_blackout (cs : list component) (c : component) (p : bool)
    (st : state) (v : bool * bool) (st' : state) :
  c ∈ cs →
  String.eqb (component_name c) "VEVENT" = true →
  summary c = Some Worker.no_power →
  (∀ j : nat, (j < count_events cs)%nat →
     active (reading env (now_calls st + j)) c = true) →
  Worker.walk_loop cs false p env st = (Ok v, st') →
  fst v = true.
Proof.
  revert p st. induction cs as [|d cs IH]; intros p st Hin Hc Hsum Hact.
  { by apply elem_of_nil in Hin. }
  rewrite walk_loop_cons. rewrite count_events_cons in Hact.
  destruct (String.eqb (component_name d) "VEVENT") eqn:Hev.
  2:{ apply elem_of_cons in Hin as [-> | Hin]; [congruence |].
      apply IH; [done | done | done |]. intros j Hj. apply Hact. lia. }
  destruct (within_event (reading env (now_calls st)) d) as [w|e] eqn:Hw; [| done].
  apply (within_event_active _ d w Hev) in Hw.
  apply elem_of_cons in Hin as [Heq | Hin].
  { subst d. specialize (Hact 0%nat ltac:(lia)). rewrite Nat.add_0_r in Hact.
    rewrite Hact in Hw. subst w. rewrite Hsum. cbn [Worker.summary_is].
    rewrite String.eqb_refl. by intros [= <-]. }
  assert (Hnext : ∀ p' : bool,
            Worker.walk_loop cs false p' env (tick_now st) = (Ok v, st') →
            v.1 = true).
  { intros p'. apply IH; [done | done | done |].
    intros j Hj. cbn [now_calls tick_now].
    replace (S (now_calls st) + j)%nat with (now_calls st + S j)%nat by lia.
    apply Hact. lia. }
  destruct w; [| by apply Hnext].
  destruct (Worker.summary_is (summary d) Worker.no_power); [by intros [= <-] |].
  destruct (Worker.summary_is (summary d) Worker.possible_outage); by apply Hnext.
Qed.

Lemma spec_evaluate_status (now : Z) (cs : list component) (p : bool) :
  Worker.gauge_values (spec_evaluate now cs false p).1 (spec_evaluate now cs false p).2 =
    if existsb (fun c => active now c
                        && Worker.summary_is (summary c) Worker.no_power) cs
    then (1, 0, 0)
    else if p || existsb (fun c => active now c
                                  && Worker.summary_is (summary c)
                                       Worker.possible_outage) cs
    then (0, 1, 0)
    else (0, 0, 1).
Proof.
  revert p. induction cs as [|c cs IH]; intros p; simpl.
  { by destruct p. }
  destruct (active now c); simpl; [| apply IH].
  destruct (Worker.summary_is (summary c) Worker.no_power); simpl; [done |].
  destruct (Worker.summary_is (summary c) Worker.possible_outage); simpl.
  - rewrite IH. simpl. by rewrite orb_true_r.
  - apply IH.
Qed.

Lemma existsb_Permutation {X : Type} (f : X → bool) (l l' : list X) :
  Permutation l l' → existsb f l = existsb f l'.
Proof.
  induction 1 as [|x l l' _ IH|x y l|l l' l'' _ IH1 _ IH2]; simpl.
  - done.
  - by rewrite IH.
  - by destruct (f x), (f y).
  - by rewrite IH1.
Qed.

Lemma spec_status_Permutation (now : Z) (cs cs' : list component) :
  Permutation cs cs' → spec_status now cs = spec_status now cs'.
Proof.
  intros H. unfold spec_status.
  by rewrite !(existsb_Permutation _ cs cs' H).
Qed.

Lemma forallb_Permutation {X : Type} (f : X → bool) (l l' : list X) :
  Permutation l l' → forallb f l = forallb f l'.
Proof.
  induction 1 as [|x l l' _ IH|x y l|l l' l'' _ IH1 _ IH2]; simpl.
  - done.
  - by rewrite IH.
  - by destruct (f x), (f y).
  - by rewrite IH1.
Qed.

Lemma count_events_Permutation (cs cs' : list component) :
  Permutation cs cs' → count_events cs = count_events cs'.
Proof.
  induction 1 as [|x l l' _ IH|x y l|l l' l'' _ IH1 _ IH2].
  - done.
  - rewrite !count_events_cons. by rewrite IH.
  - rewrite !count_events_cons. lia.
  - by rewrite IH1.
Qed.

(** A scan that ends normally with readings that are all the instant [now]
    yields the state of [spec_status]. *)
Lemma walk_loop_status (now : Z) (cs : list component) (st : state)
    (b p : bool) (st' : state) :
  (∀ j : nat, (j < count_events cs)%nat → reading env (now_calls st + j) = now) →
  Worker.walk_loop cs false false env st = (Ok (b, p), st') →
  Worker.gauge_values b p = spec_status now cs.
Proof.
  intros Hclock Hrun.
  destruct (walk_loop_run cs false st) as (r & k & Hrun' & Hle & _ & _ & Hspec).
  rewrite Hrun in Hrun'. injection Hrun' as <- _.
  specialize (Hspec now (b, p) (fun j Hj => Hclock j ltac:(lia)) eq_refl).
  change b with (b, p).1. change p with (b, p).2 at 2. rewrite Hspec.
  rewrite spec_evaluate_status. done.
Qed.

(** Over events that all have their two aware times the scan ends
    normally. *)
Lemma walk_loop_total (cs : list component) (p : bool) (st : state) :
  forallb well_timed cs = true →
  ∃ (v : bool * bool) (k : nat),
    Worker.walk_loop cs false p env st = (Ok v, advance_now k st)
    ∧ (k ≤ count_events cs)%nat.
Proof.
  intros Hcs.
  destruct (walk_loop_run cs p st) as (r & k & Hrun & Hle & _ & Hok & _).
  destruct (Hok Hcs) as [v ->]. by exists v, k.
Qed.

End Evaluator.

(** C2.  For every sequence of calendar components whose events have a start
    and an end, both timezone-aware, and in whatever order they come
    ([components'] is any permutation of [components]), the scan ends
    normally and exactly one of the three values it leads to is 1.  If some
    event with the "no power" summary is active at every reading of the
    clock the scan can take, however the clock moves, the values are
    (1, 0, 0).  If the readings are all the instant [now], the values are
    those of the precedence blackout, then possible_blackout, then
    no_blackout among the events active at [now].  A "no power" match ends
    the scan at once, keeping what was seen before and reading nothing
    further. *)
Theorem blackout_takes_precedence (env : environment) (st : state)
    (components components' : list component) :
  forallb well_timed components = true →
  Permutation components components' →
  ∃ (blackout possible_blackout : bool) (st' : state),
    Worker.walk_loop components' false false env st
      = (Ok (blackout, possible_blackout), st')
    ∧ (Worker.gauge_values blackout possible_blackout = (1, 0, 0)
       ∨ Worker.gauge_values blackout possible_blackout = (0, 1, 0)
       ∨ Worker.gauge_values blackout possible_blackout = (0, 0, 1))
    ∧ ((∃ c : component,
          c ∈ components
          ∧ String.eqb (component_name c) "VEVENT" = true
          ∧ summary c = Some Worker.no_power
          ∧ ∀ j : nat, (j < count_events components)%nat →
              active (reading env (now_calls st + j)) c = true) →
       Worker.gauge_values blackout possible_blackout = (1, 0, 0))
    ∧ (∀ now : Z,
         (∀ j : nat, (j < count_events components)%nat →
            reading env (now_calls st + j) = now) →
         Worker.gauge_values blackout possible_blackout
           = spec_status now components)
    ∧ (∀ (c : component) (rest : list component) (seen : bool),
         active (reading env (now_calls st)) c = true →
         summary c = Some Worker.no_power →
         Worker.walk_loop (c :: rest) false seen env st
           = (Ok (true, seen), tick_now st)).
Proof.
  intros Htimed Hperm.
  rewrite (forallb_Permutation _ _ _ Hperm) in Htimed.
  destruct (walk_loop_total env components' false st Htimed)
    as ([b p] & k & Hrun & _).
  exists b, p, (advance_now k st). split; [done |].
  rewrite (count_events_Permutation _ _ Hperm).
  split; [| split; [| split]].
  - destruct b, p; simpl; auto.
  - intros (c & Hin & Hev & Hsum & Hact).
    rewrite Hperm in Hin.
    by rewrite (walk_loop_blackout env components' c false st (b, p) _
                  Hin Hev Hsum Hact Hrun : b = true).
  - intros now Hclock.
    rewrite (spec_status_Permutation now _ _ Hperm).
    exact (walk_loop_status env now components' st b p _ Hclock Hrun).
  - intros c rest seen Hact Hsum. rewrite walk_loop_cons.
    pose proof Hact as Hact'. unfold active in Hact'.
    apply andb_prop in Hact' as [Hev Hin]. rewrite Hev.
    assert (Hw : well_timed c = true).
    { unfold well_timed. rewrite Hev. simpl.
      by destruct (dtstart c) as [[?|]|], (dtend c) as [[?|]|]. }
    rewrite (within_event_well_timed _ c Hev Hw), Hact, Hsum.
    cbn [Worker.summary_is]. by rewrite String.eqb_refl.
Qed.

(** With the clock moving from 6 to 7 between the two readings and the
    "possible outage" event of [overlapping_feed] coming first, the values
    are (1, 0, 0). *)
Lemma blackout_takes_precedence_witness :
  ∃ (blackout possible_blackout : bool) (st' : state),
    Worker.walk_loop
      [event Worker.possible_outage 5 10; event Worker.no_power 5 10]
      false false
      (plain_env (fun n => 6 + Z.of_nat n) 200 overlapping_feed) (main_state 300)
      = (Ok (blackout, possible_blackout), st')
    ∧ Worker.gauge_values blackout possible_blackout = (1, 0, 0).
Proof.
  destruct (blackout_takes_precedence
              (plain_env (fun n => 6 + Z.of_nat n) 200 overlapping_feed)
              (main_state 300) overlapping_feed
              [event Worker.possible_outage 5 10; event Worker.no_power 5 10]
              eq_refl (perm_swap _ _ []))
    as (b & p & st' & Hrun & _ & Hwin & _).
  exists b, p, st'. split; [exact Hrun |].
  apply Hwin. exists (event Worker.no_power 5 10).
  split; [apply list_elem_of_here |]. split; [reflexivity |].
  split; [reflexivity |].
  intros [|[|j]] Hj; [reflexivity | reflexivity |].
  exfalso. vm_compute in Hj. lia.
Defined.

(** * The registry *)

Section Registry.

Implicit Types r : gmap string (gmap string Z).

Lemma sample_registry_add r (n : string) :
  r !! n = None → same_samples r (registry_add n r).
Proof.
  intros Hn n' l. unfold sample, registry_add.
  destruct (decide (n = n')) as [<-|Hne].
  - by rewrite lookup_insert_eq, Hn.
  - by rewrite lookup_insert_ne.
Qed.

Lemma sample_registry_set_eq r (n l : string) (v : Z) :
  sample (registry_set n l v r) n l = Some v.
Proof.
  unfold sample, registry_set. rewrite lookup_insert_eq. simpl.
  by rewrite lookup_insert_eq.
Qed.

Lemma sample_registry_set_ne r (n l n' l' : string) (v : Z) :
  n' ≠ n ∨ l' ≠ l → sample (registry_set n l v r) n' l' = sample r n' l'.
Proof.
  intros H. unfold sample, registry_set.
  destruct (decide (n = n')) as [<-|Hne].
  - destruct H as [H|H]; [done |].
    rewrite lookup_insert_eq. simpl. rewrite lookup_insert_ne by done.
    by destruct (r !! n).
  - by rewrite lookup_insert_ne.
Qed.

Lemma same_samples_refl r : same_samples r r.
Proof. by intros n l. Qed.

Lemma same_samples_trans r1 r2 r3 :
  same_samples r1 r2 → same_samples r2 r3 → same_samples r1 r3.
Proof. intros H1 H2 n l. by rewrite H2, H1. Qed.

Lemma same_samples_off_refl (g : string) r : same_samples_off g r r.
Proof. by intros n l _. Qed.

Lemma same_samples_off_trans (g : string) r1 r2 r3 :
  same_samples_off g r1 r2 → same_samples_off g r2 r3 → same_samples_off g r1 r3.
Proof. intros H1 H2 n l Hl. by rewrite H2, H1. Qed.

Lemma same_samples_weaken (g : string) r r' :
  same_samples r r' → same_samples_off g r r'.
Proof. intros H n l _. apply H. Qed.

Lemma exactly_one_same (g : string) r r' :
  (∀ n : string, sample r' n g = sample r n g) →
  exactly_one r g → exactly_one r' g.
Proof.
  intros H. unfold exactly_one, status_samples. by rewrite !H.
Qed.

End Registry.

(** * Properties kept by every outcome *)

Section Keeps.

Context {A B : Type}.
Variable P : state → Prop.

Lemma keeps_bind (m : M A) (f : A → M B) :
  keeps P m → (∀ a : A, keeps P (f a)) → keeps P (m ≫= f).
Proof.
  intros Hm Hf env st HP. rewrite run_bind.
  specialize (Hm env st HP). destruct (m env st) as [[a|e] st']; simpl in *.
  - by apply Hf.
  - done.
Qed.

Lemma keeps_ret (a : A) : keeps P (mret a : M A).
Proof. by intros env st HP. Qed.

Lemma keeps_gets (f : state → A) : keeps P (gets f).
Proof. by intros env st HP. Qed.

Lemma keeps_asks (f : environment → A) : keeps P (asks f).
Proof. by intros env st HP. Qed.

Lemma keeps_raise (e : exception) : keeps P (raise e : M A).
Proof. by intros env st HP. Qed.

Lemma keeps_try (m : M A) :
  keeps P m → keeps P (try_except_YasnoMetricException m).
Proof.
  intros Hm env st HP. unfold try_except_YasnoMetricException.
  specialize (Hm env st HP). destruct (m env st) as [[a|e] st']; simpl in *;
    [done |]. by destruct e.
Qed.

End Keeps.

Lemma keeps_modify (P : state → Prop) (f : state → state) :
  (∀ st : state, P st → P (f st)) → keeps P (modify f).
Proof. intros Hf env st HP. by apply Hf. Qed.

Lemma keeps_for_each (P : state → Prop) (ids : list nat) (body : nat → M unit) :
  (∀ id : nat, keeps P (body id)) → keeps P (Worker.for_each ids body).
Proof.
  intros Hbody. induction ids as [|id ids IH]; simpl.
  - apply keeps_ret.
  - apply keeps_bind; [apply Hbody | intros _; apply IH].
Qed.

Lemma keeps_mapM {X Y : Type} (P : state → Prop) (f : X → M Y) (l : list X) :
  (∀ x : X, keeps P (f x)) → keeps P (mapM f l).
Proof.
  intros Hf. induction l as [|x l IH]; simpl.
  - apply keeps_ret.
  - apply keeps_bind; [apply Hf |]. intros y.
    apply keeps_bind; [apply IH |]. intros ys. apply keeps_ret.
Qed.

(** * What the methods leave alone *)

Section WorkerOnly.

Variable P : state → Prop.
Hypothesis P_worker_only : worker_only P.

Lemma keeps_log_call (r : log_record) : keeps P (log_call r).
Proof. apply keeps_modify. intros st. by apply P_worker_only. Qed.

Lemma keeps_get_metric_by_yasno_key (key : string) :
  keeps P (Worker.get_metric_by_yasno_key key).
Proof.
  intros env st HP. rewrite get_metric_by_yasno_key_run. simpl.
  revert HP. by apply P_worker_only.
Qed.

Lemma keeps_set (metric : YasnoMetric) (value : Z) (label : string) :
  keeps P (YasnoMetric.set metric value label).
Proof.
  intros env st HP. rewrite set_run_float.
  destruct (float_of_int value); simpl; revert HP; by apply P_worker_only.
Qed.

Lemma keeps_init (key : string) : keeps P (YasnoMetric.__init__ key).
Proof.
  intros env st HP. rewrite init_run.
  destruct (YasnoMetric.convert_yasno_key_to_prometheus_name key) as [d|e];
    simpl; [| revert HP; by apply P_worker_only].
  destruct (negb _); simpl; [revert HP; by apply P_worker_only |].
  destruct (decide _); simpl; revert HP; by apply P_worker_only.
Qed.

Lemma keeps_lookup_and_set (key : string) (value : Z) (label : string) :
  keeps P (Worker.lookup_and_set key value label).
Proof.
  apply keeps_bind; [apply keeps_get_metric_by_yasno_key |].
  intros [metric|]; [apply keeps_set | apply keeps_raise].
Qed.

Lemma keeps_write_gauges (blackout possible_blackout : bool) (g : string) :
  keeps P (Worker.write_gauges blackout possible_blackout g).
Proof.
  unfold Worker.write_gauges.
  destruct (Worker.gauge_values blackout possible_blackout) as [[b p] n].
  repeat first [ apply keeps_lookup_and_set | apply keeps_gets
               | apply keeps_bind; [| intros ?] ].
Qed.

Lemma keeps_requests_get (u : string) : keeps P (Worker.requests_get u).
Proof.
  intros env st HP. rewrite requests_get_run. simpl.
  revert HP. by apply P_worker_only.
Qed.

Lemma keeps_Calendar_from_ical (data : string) :
  keeps P (Worker.Calendar_from_ical data).
Proof. intros env st HP. by rewrite Calendar_from_ical_run. Qed.

Lemma keeps_walk_loop (cs : list component) (p : bool) :
  keeps P (Worker.walk_loop cs false p).
Proof.
  intros env st HP.
  destruct (walk_loop_run env cs p st) as (r & k & -> & _). simpl.
  revert HP. by apply P_worker_only.
Qed.

End WorkerOnly.

Section Scan.

Lemma scan_None (metrics : list YasnoMetric) (key : string) :
  Worker.scan metrics key = None → key ∉ yasno_key <$> metrics.
Proof.
  induction metrics as [|m metrics IH]; simpl; [intros _; apply not_elem_of_nil |].
  destruct (String.eqb_spec (yasno_key m) key) as [Heq|Hne]; [done |].
  intros H. apply not_elem_of_cons. split; [done | by apply IH].
Qed.

Lemma scan_Some (metrics : list YasnoMetric) (key : string) (m : YasnoMetric) :
  Worker.scan metrics key = Some m → m ∈ metrics ∧ yasno_key m = key.
Proof.
  induction metrics as [|m' metrics IH]; simpl; [done |].
  destruct (String.eqb_spec (yasno_key m') key) as [Heq|Hne].
  - intros [= <-]. split; [apply list_elem_of_here | done].
  - intros H. destruct (IH H) as [Hin Hkey].
    split; [by apply list_elem_of_further | done].
Qed.

(** A metric appended to a list that has none of its key is the one the scan
    finds. *)
Lemma scan_app_new (metrics : list YasnoMetric) (m : YasnoMetric) :
  Worker.scan metrics (yasno_key m) = None →
  Worker.scan (metrics ++ [m]) (yasno_key m) = Some m.
Proof.
  induction metrics as [|m' metrics IH]; simpl.
  - by rewrite String.eqb_refl.
  - destruct (String.eqb (yasno_key m') (yasno_key m)); [done | apply IH].
Qed.

End Scan.

(** * Looking up and creating a metric *)

Section Ensure.

Variable env : environment.

Lemma ensure_metric_found (key : string) (st : state) (m : YasnoMetric) :
  Worker.scan (metrics_collector (self st)) key = Some m →
  Worker.ensure_metric key env st =
    (Ok (Some m), add_log (debug_found (name m) key) st).
Proof. intros H. by rewrite ensure_metric_run, H. Qed.

(** What [ensure_metric] does to the worker: nothing, or it appends the
    metric it made for a key no metric had. *)
Lemma ensure_metric_worker (key : string) (st : state) :
  self (Worker.ensure_metric key env st).2 = self st
  ∨ ∃ m : YasnoMetric,
      Worker.scan (metrics_collector (self st)) key = None
      ∧ yasno_key m = key
      ∧ (Worker.ensure_metric key env st).1 = Ok (Some m)
      ∧ (Worker.ensure_metric key env st).2 =
          set_metrics_collector (metrics_collector (self st) ++ [m])
            (add_log (info_created key (name m))
               (set_REGISTRY (registry_add (name m) (REGISTRY st))
                  (tick_allocated (add_log (debug_cannot_find key) st)))).
Proof.
  rewrite ensure_metric_run.
  destruct (Worker.scan (metrics_collector (self st)) key) as [m|] eqn:Hscan;
    [by left |].
  rewrite init_run.
  destruct (YasnoMetric.convert_yasno_key_to_prometheus_name key) as [d|e].
  2:{ left. by destruct e. }
  simpl. destruct (negb _); [by left |].
  destruct (decide _); [by left |].
  right. exists {| obj := allocated st; yasno_key := key; name := "yasno_" +:+ d |}.
  repeat split.
Qed.

Lemma ensure_metric_returns (key : string) (st st1 : state) (m : YasnoMetric) :
  Worker.ensure_metric key env st = (Ok (Some m), st1) →
  Worker.scan (metrics_collector (self st1)) key = Some m.
Proof.
  intros Hrun.
  destruct (ensure_metric_worker key st) as [Hsame|(m' & Hnone & Hkey & Hres & Hst)].
  - rewrite Hrun in Hsame. simpl in Hsame. rewrite Hsame.
    rewrite ensure_metric_run in Hrun.
    destruct (Worker.scan (metrics_collector (self st)) key) as [m0|] eqn:Hscan.
    + by inversion Hrun.
    + exfalso. rewrite init_run in Hrun.
      destruct (YasnoMetric.convert_yasno_key_to_prometheus_name key) as [d|e].
      2:{ by destruct e. }
      simpl in Hrun. destruct (negb _); [done |].
      destruct (decide _); [done |].
      inversion Hrun as [[Hm Hst1]]. subst st1. simpl in Hsame.
      apply (f_equal metrics_collector) in Hsame. simpl in Hsame.
      apply (f_equal length) in Hsame. rewrite length_app in Hsame.
      simpl in Hsame. lia.
  - rewrite Hrun in Hres, Hst. simpl in Hres, Hst. inversion Hres; subst m'.
    subst st1. simpl. rewrite <- Hkey. apply scan_app_new. by rewrite Hkey.
Qed.

End Ensure.

Lemma keeps_ensure_metric_NoDup (key : string) :
  keeps (fun st => NoDup (collector_keys st)) (Worker.ensure_metric key).
Proof.
  intros env' st HP. unfold collector_keys in *.
  destruct (ensure_metric_worker env' key st)
    as [Hsame|(m & Hnone & Hkey & _ & Hst)].
  - by rewrite Hsame.
  - rewrite Hst. simpl. rewrite fmap_app. apply NoDup_app.
    split; [done |]. split; [| apply NoDup_singleton].
    intros k Hk Hin. simpl in Hin. apply list_elem_of_singleton in Hin.
    subst k. rewrite Hkey in Hk. by apply (scan_None _ _ Hnone).
Qed.

(** The worker changes only by the metrics [ensure_metric] appends: a
    property of the worker that [ensure_metric] keeps is kept by a whole
    group, a whole cycle and the loop. *)
Lemma keeps_process_group (P : state → Prop) (id : nat) :
  worker_only P → (∀ key : string, keeps P (Worker.ensure_metric key)) →
  keeps P (Worker.process_group id).
Proof.
  intros HP Hensure. unfold Worker.process_group.
  apply keeps_bind; [apply keeps_gets | intros w].
  apply keeps_bind; [by apply keeps_mapM | intros _].
  apply keeps_bind; [by apply keeps_requests_get | intros response].
  apply keeps_bind; [by apply keeps_Calendar_from_ical | intros gcal].
  apply keeps_bind; [by apply keeps_walk_loop | intros [blackout possible]].
  by apply keeps_write_gauges.
Qed.

Lemma keeps_process_calendar (P : state → Prop) :
  worker_only P → (∀ key : string, keeps P (Worker.ensure_metric key)) →
  keeps P Worker.process_calendar.
Proof.
  intros HP Hensure. apply keeps_for_each. intros id.
  by apply keeps_process_group.
Qed.

Lemma keeps_time_sleep (P : state → Prop) (seconds : Z) :
  keeps P (Worker.time_sleep seconds).
Proof.
  unfold Worker.time_sleep.
  destruct (_ || _); [apply keeps_raise |].
  destruct (seconds <? 0); [apply keeps_raise | apply keeps_ret].
Qed.

Lemma keeps_loop (P : state → Prop) (n : nat) :
  worker_only P → (∀ key : string, keeps P (Worker.ensure_metric key)) →
  keeps P (Worker.loop n).
Proof.
  intros HP Hensure. induction n as [|n IH]; simpl; [apply keeps_ret |].
  apply keeps_bind; [by apply keeps_process_calendar | intros _].
  apply keeps_bind; [apply keeps_gets | intros seconds].
  apply keeps_bind; [apply keeps_time_sleep | intros _]. apply IH.
Qed.

(** * One group in a running exporter *)

Section Group.

Variable env : environment.
Hypothesis env_accepts : accepts_identifiers env.

Lemma ensure_metric_creates (key d : string) (st : state) :
  Worker.scan (metrics_collector (self st)) key = None →
  YasnoMetric.convert_yasno_key_to_prometheus_name key = Ok d →
  valid_metric_name env ("yasno_" +:+ d) = true →
  REGISTRY st !! ("yasno_" +:+ d) = None →
  Worker.ensure_metric key env st =
    (Ok (Some {| obj := allocated st; yasno_key := key; name := "yasno_" +:+ d |}),
     with_new_metric
       {| obj := allocated st; yasno_key := key; name := "yasno_" +:+ d |} st).
Proof.
  intros Hscan Hconv Hvalid Hnew.
  rewrite ensure_metric_run, Hscan, init_run, Hconv. simpl.
  rewrite Hvalid. simpl.
  destruct (decide (is_Some (REGISTRY st !! ("yasno_" +:+ d)))) as [Hsome|_];
    [| done].
  rewrite Hnew in Hsome. by destruct Hsome.
Qed.

Lemma run_mapM_3 {X Y : Type} (f : X → M Y) (x1 x2 x3 : X) (y1 y2 y3 : Y)
    (st st1 st2 st3 : state) :
  f x1 env st = (Ok y1, st1) → f x2 env st1 = (Ok y2, st2) →
  f x3 env st2 = (Ok y3, st3) →
  mapM f [x1; x2; x3] env st = (Ok [y1; y2; y3], st3).
Proof.
  intros H1 H2 H3. simpl.
  rewrite run_bind, H1, run_bind, run_bind, H2, run_bind, run_bind, H3.
  by run.
Qed.

Lemma errors_logged_add_log (r : log_record) (st : state) :
  is_error r = false → errors_logged (add_log r st) = errors_logged st.
Proof.
  intros Hr. unfold errors_logged. simpl.
  rewrite List.filter_app. simpl. rewrite Hr. apply app_nil_r.
Qed.

Lemma errors_logged_with_new_metric (m : YasnoMetric) (st : state) :
  errors_logged (with_new_metric m st) = errors_logged st.
Proof.
  unfold errors_logged, with_new_metric. simpl.
  rewrite !List.filter_app. simpl. by rewrite !app_nil_r.
Qed.

(** The loop over the three keys in a running exporter: afterwards the three
    metrics exist, and no sample has changed. *)
Lemma ensure_phase (st : state) :
  inv st →
  ∃ (ms : list (option YasnoMetric)) (st1 : state),
    mapM Worker.ensure_metric ["blackout"; "possible_blackout"; "no_blackout"] env st
      = (Ok ms, st1)
    ∧ builtin_keys (self st1) ∧ ready st1
    ∧ same_samples (REGISTRY st) (REGISTRY st1)
    ∧ get_calls st1 = get_calls st ∧ now_calls st1 = now_calls st
    ∧ errors_logged st1 = errors_logged st.
Proof.
  intros [Hkeys [(Hcol & Hb & Hp & Hn)|(i & j & k & Hcol)]].
  - set (m0 := {| obj := allocated st; yasno_key := "blackout";
                  name := "yasno_blackout" |}).
    set (st1 := with_new_metric m0 st).
    set (m1 := {| obj := allocated st1; yasno_key := "possible_blackout";
                  name := "yasno_possible_blackout" |}).
    set (st2 := with_new_metric m1 st1).
    set (m2 := {| obj := allocated st2; yasno_key := "no_blackout";
                  name := "yasno_no_blackout" |}).
    exists [Some m0; Some m1; Some m2], (with_new_metric m2 st2).
    split; [| split; [| split; [| split; [| split; [| split]]]]].
    + apply run_mapM_3 with (st1 := st1) (st2 := st2).
      * apply (ensure_metric_creates "blackout" "blackout");
          [by rewrite Hcol | done | by apply env_accepts | done].
      * apply (ensure_metric_creates "possible_blackout" "possible_blackout");
          [ subst st1; simpl; by rewrite Hcol | done | by apply env_accepts | ].
        subst st1. simpl. unfold registry_add. by rewrite lookup_insert_ne.
      * apply (ensure_metric_creates "no_blackout" "no_blackout");
          [ subst st2 st1; simpl; by rewrite Hcol | done | by apply env_accepts | ].
        subst st2 st1. simpl. unfold registry_add.
        by rewrite !lookup_insert_ne.
    + done.
    + exists (allocated st), (allocated st1), (allocated st2).
      subst st2 st1. simpl. by rewrite Hcol.
    + subst st2 st1. simpl.
      eapply same_samples_trans; [| apply sample_registry_add].
      * eapply same_samples_trans; [| apply sample_registry_add].
        -- by apply sample_registry_add.
        -- unfold registry_add. by rewrite lookup_insert_ne.
      * unfold registry_add. by rewrite !lookup_insert_ne.
    + done.
    + done.
    + subst st2 st1. by rewrite !errors_logged_with_new_metric.
  - eexists _, _. split; [| split; [| split; [| split; [| split; [| split]]]]].
    + eapply run_mapM_3; apply ensure_metric_found; simpl; rewrite Hcol;
        reflexivity.
    + done.
    + by exists i, j, k.
    + apply same_samples_refl.
    + done.
    + done.
    + by rewrite !errors_logged_add_log.
Qed.

(** One lookup and write when the metric is there. *)
Lemma lookup_and_set_found (key : string) (value : Z) (label : string)
    (st : state) (m : YasnoMetric) :
  Z.abs value < 2 ^ 53 →
  Worker.scan (metrics_collector (self st)) key = Some m →
  Worker.lookup_and_set key value label env st =
    (Ok tt,
     set_REGISTRY (registry_set (name m) label value (REGISTRY st))
       (add_log (debug_set (name m) value label)
          (add_log (debug_found (name m) key) st))).
Proof. intros Hv H. by rewrite lookup_and_set_run, H, set_run. Qed.

(** The values written are 0 and 1, which [float] keeps. *)
Lemma gauge_values_exact (blackout possible_blackout : bool) (vb vp vn : Z) :
  Worker.gauge_values blackout possible_blackout = (vb, vp, vn) →
  Z.abs vb < 2 ^ 53 ∧ Z.abs vp < 2 ^ 53 ∧ Z.abs vn < 2 ^ 53.
Proof.
  unfold Worker.gauge_values.
  destruct blackout; [| destruct possible_blackout]; intros [= <- <- <-];
    repeat split; reflexivity.
Qed.

(** The three writes in a running exporter. *)
Lemma write_gauges_ready (blackout possible_blackout : bool) (g : string)
    (st : state) :
  builtin_keys (self st) → ready st →
  ∃ st' : state,
    Worker.write_gauges blackout possible_blackout g env st = (Ok tt, st')
    ∧ self st' = self st
    ∧ REGISTRY st' =
        registry_written (Worker.gauge_values blackout possible_blackout) g
          (REGISTRY st).
Proof.
  intros (Hb & Hp & Hn) (i & j & k & Hcol). unfold Worker.write_gauges.
  destruct (Worker.gauge_values blackout possible_blackout) as [[vb vp] vn] eqn:Hv.
  destruct (gauge_values_exact _ _ _ _ _ Hv) as (Hvb & Hvp & Hvn).
  rewrite run_bind, run_gets, Hb, run_bind.
  erewrite (lookup_and_set_found _ _ _ _ _ Hvb) by (rewrite Hcol; reflexivity).
  rewrite run_bind, run_gets. simpl self. rewrite Hp, run_bind.
  erewrite (lookup_and_set_found _ _ _ _ _ Hvp)
    by (simpl; rewrite Hcol; reflexivity).
  rewrite run_bind, run_gets. simpl self. rewrite Hn.
  erewrite (lookup_and_set_found _ _ _ _ _ Hvn)
    by (simpl; rewrite Hcol; reflexivity).
  eexists. split; [reflexivity |]. split; reflexivity.
Qed.

Lemma status_samples_written (vb vp vn : Z) (g : string)
    (r : gmap string (gmap string Z)) :
  status_samples (registry_written (vb, vp, vn) g r) g = (Some vb, Some vp, Some vn).
Proof.
  unfold status_samples, registry_written. lazy beta iota zeta.
  rewrite (sample_registry_set_eq _ "yasno_no_blackout").
  rewrite (sample_registry_set_ne _ "yasno_no_blackout" _ "yasno_possible_blackout")
    by (by left).
  rewrite (sample_registry_set_eq _ "yasno_possible_blackout").
  rewrite (sample_registry_set_ne _ "yasno_no_blackout" _ "yasno_blackout")
    by (by left).
  rewrite (sample_registry_set_ne _ "yasno_possible_blackout" _ "yasno_blackout")
    by (by left).
  by rewrite (sample_registry_set_eq _ "yasno_blackout").
Qed.

Lemma same_samples_off_written (values : Z * Z * Z) (g : string)
    (r : gmap string (gmap string Z)) :
  same_samples_off g r (registry_written values g r).
Proof.
  destruct values as [[vb vp] vn]. intros n l Hl. unfold registry_written.
  lazy beta iota zeta. by rewrite !sample_registry_set_ne by (by right).
Qed.

Lemma exactly_one_written (blackout possible_blackout : bool) (g : string)
    (r : gmap string (gmap string Z)) :
  exactly_one
    (registry_written (Worker.gauge_values blackout possible_blackout) g r) g.
Proof.
  unfold exactly_one, Worker.gauge_values.
  destruct blackout; [| destruct possible_blackout];
    rewrite status_samples_written; auto.
Qed.

(** The body of the loop over the groups, in a running exporter, by the
    outcome of the request and of the parser. *)
Lemma process_group_run (id : nat) (st : state) :
  inv st →
  ∃ st1 : state,
    builtin_keys (self st1) ∧ ready st1
    ∧ same_samples (REGISTRY st) (REGISTRY st1)
    ∧ now_calls st1 = now_calls st
    ∧ errors_logged st1 = errors_logged st
    ∧ match network env (get_calls st) (Worker.url (Worker.group_name id)) with
      | None =>
          Worker.process_group id env st = (Raise RequestException, tick_get st1)
      | Some response =>
          match from_ical env (content response) with
          | None =>
              Worker.process_group id env st
                = (Raise (ValueError (content response)), tick_get st1)
          | Some gcal =>
              ∃ (r : result (bool * bool)) (k : nat),
                Worker.walk_loop gcal false false env (tick_get st1)
                  = (r, advance_now k (tick_get st1))
                ∧ match r with
                  | Raise e =>
                      Worker.process_group id env st
                        = (Raise e, advance_now k (tick_get st1))
                  | Ok v =>
                      ∃ st' : state,
                        Worker.process_group id env st = (Ok tt, st')
                        ∧ self st' = self st1
                        ∧ REGISTRY st' =
                            registry_written (Worker.gauge_values v.1 v.2)
                              (Worker.group_name id) (REGISTRY st1)
                  end
          end
      end.
Proof.
  intros Hinv.
  destruct (ensure_phase st Hinv)
    as (ms & st1 & Hens & Hkeys & Hready & Hsame & Hget & Hnow & Herr).
  exists st1. split; [done |]. split; [done |]. split; [done |].
  split; [done |]. split; [done |].
  unfold Worker.process_group. rewrite run_bind, run_gets.
  destruct Hinv as [(Hb & Hp & Hn) _]. rewrite Hb, Hp, Hn.
  rewrite run_bind, Hens, run_bind, requests_get_run, Hget.
  destruct (network env (get_calls st) (Worker.url (Worker.group_name id)))
    as [response|]; [| done].
  rewrite run_bind, Calendar_from_ical_run.
  destruct (from_ical env (content response)) as [gcal|]; [| done].
  destruct (walk_loop_run env gcal false (tick_get st1))
    as (r & k & Hwalk & _).
  exists r, k. split; [done |]. rewrite run_bind, Hwalk.
  destruct r as [[b p]|e]; [| done].
  destruct (write_gauges_ready b p (Worker.group_name id)
              (advance_now k (tick_get st1)) Hkeys Hready)
    as (st' & Hwrite & Hself & Hreg).
  exists st'. by rewrite Hwrite.
Qed.

(** A running exporter stays one, whatever happens to a group. *)
Lemma process_group_inv (id : nat) (st : state) :
  inv st → inv (Worker.process_group id env st).2.
Proof.
  intros Hinv.
  destruct (process_group_run id st Hinv)
    as (st1 & Hkeys & Hready & _ & _ & _ & Hrun).
  destruct (network env _ _) as [response|].
  - destruct (from_ical env _) as [gcal|].
    + destruct Hrun as ([v|e] & k & _ & Hrun).
      * destruct Hrun as (st' & -> & Hself & _). simpl.
        unfold inv, ready. rewrite Hself. split; [done | by right].
      * rewrite Hrun. split; [done | by right].
    + rewrite Hrun. split; [done | by right].
  - rewrite Hrun. split; [done | by right].
Qed.

(** A group writes no sample at the label of another group, and writes
    nothing at all when it ends with an exception. *)
Lemma process_group_frame (id : nat) (st : state) :
  inv st →
  same_samples_off (Worker.group_name id) (REGISTRY st)
    (REGISTRY (Worker.process_group id env st).2)
  ∧ (∀ e : exception, (Worker.process_group id env st).1 = Raise e →
       same_samples (REGISTRY st) (REGISTRY (Worker.process_group id env st).2)).
Proof.
  intros Hinv.
  destruct (process_group_run id st Hinv)
    as (st1 & Hkeys & Hready & Hsame & _ & _ & Hrun).
  destruct (network env _ _) as [response|].
  - destruct (from_ical env _) as [gcal|].
    + destruct Hrun as ([v|e] & k & _ & Hrun).
      * destruct Hrun as (st' & -> & _ & Hreg). simpl.
        split; [| done]. rewrite Hreg.
        eapply same_samples_off_trans;
          [by apply same_samples_weaken | apply same_samples_off_written].
      * rewrite Hrun. simpl. split; [by apply same_samples_weaken | done].
    + rewrite Hrun. simpl. split; [by apply same_samples_weaken | done].
  - rewrite Hrun. simpl. split; [by apply same_samples_weaken | done].
Qed.

Lemma for_each_cons (id : nat) (ids : list nat) (body : nat → M unit)
    (st : state) :
  Worker.for_each (id :: ids) body env st =
    match body id env st with
    | (Ok _, st1) => Worker.for_each ids body env st1
    | (Raise e, st1) => (Raise e, st1)
    end.
Proof. reflexivity. Qed.

Lemma for_each_inv (ids : list nat) (st : state) :
  inv st → inv (Worker.for_each ids Worker.process_group env st).2.
Proof.
  revert st. induction ids as [|id ids IH]; intros st Hinv; [done |].
  rewrite for_each_cons. pose proof (process_group_inv id st Hinv) as H1.
  destruct (Worker.process_group id env st) as [[[]|e] st1]; simpl in H1.
  - by apply IH.
  - done.
Qed.

(** The groups of a list write nothing at the label of a group that is not
    in the list. *)
Lemma for_each_frame (ids : list nat) (st : state) (g : string) :
  inv st → (∀ id : nat, id ∈ ids → Worker.group_name id ≠ g) →
  ∀ n : string,
    sample (REGISTRY (Worker.for_each ids Worker.process_group env st).2) n g
      = sample (REGISTRY st) n g.
Proof.
  revert st. induction ids as [|id ids IH]; intros st Hinv Hg n; [done |].
  rewrite for_each_cons.
  pose proof (process_group_inv id st Hinv) as H1.
  destruct (process_group_frame id st Hinv) as [H2 _].
  specialize (H2 n g). 
  destruct (Worker.process_group id env st) as [[[]|e] st1]; simpl in *.
  - rewrite IH; [| done |].
    + apply H2. intros Heq. apply (Hg id); [apply list_elem_of_here | done].
    + intros id' Hin. apply Hg. by apply list_elem_of_further.
  - apply H2. intros Heq. apply (Hg id); [apply list_elem_of_here | done].
Qed.

Global Instance group_name_inj : Inj (=) (=) Worker.group_name.
Proof.
  intros x y H. unfold Worker.group_name in H.
  apply (inj (String.app "group_")) in H. by apply (inj pretty) in H.
Qed.

Lemma process_group_exactly_one (id : nat) (st st' : state) :
  inv st → Worker.process_group id env st = (Ok tt, st') →
  exactly_one (REGISTRY st') (Worker.group_name id).
Proof.
  intros Hinv Hrun.
  destruct (process_group_run id st Hinv) as (st1 & _ & _ & _ & _ & _ & H).
  destruct (network env _ _) as [response|]; [| by rewrite H in Hrun].
  destruct (from_ical env _) as [gcal|]; [| by rewrite H in Hrun].
  destruct H as ([v|e] & k & _ & H); [| by rewrite H in Hrun].
  destruct H as (st'' & H & _ & Hreg).
  rewrite H in Hrun. inversion Hrun; subst st''.
  rewrite Hreg. apply exactly_one_written.
Qed.

(** When all the groups of a list complete, each has exactly one gauge at 1
    at the end. *)
Lemma for_each_exactly_one (ids : list nat) (st st' : state) :
  inv st → NoDup ids →
  Worker.for_each ids Worker.process_group env st = (Ok tt, st') →
  ∀ id : nat, id ∈ ids → exactly_one (REGISTRY st') (Worker.group_name id).
Proof.
  revert st. induction ids as [|id ids IH]; intros st Hinv Hnd Hrun id' Hin.
  { by apply elem_of_nil in Hin. }
  apply NoDup_cons in Hnd as [Hnotin Hnd].
  rewrite for_each_cons in Hrun.
  pose proof (process_group_inv id st Hinv) as Hinv1.
  destruct (Worker.process_group id env st) as [[[]|e] st1] eqn:Hgroup;
    [| done].
  simpl in Hinv1. apply elem_of_cons in Hin as [->|Hin].
  - apply (exactly_one_same _ (REGISTRY st1)).
    + intros n. replace st' with (Worker.for_each ids Worker.process_group env st1).2
        by (by rewrite Hrun).
      apply for_each_frame; [done |].
      intros id'' Hin'' Heq. apply (inj Worker.group_name) in Heq. by subst.
    + by apply (process_group_exactly_one id st).
  - by apply (IH st1).
Qed.

Lemma for_each_raises (before after : list nat) (id : nat) (body : nat → M unit)
    (st0 st st' : state) (e : exception) :
  Worker.for_each before body env st0 = (Ok tt, st) →
  body id env st = (Raise e, st') →
  Worker.for_each (before ++ id :: after) body env st0 = (Raise e, st').
Proof.
  revert st0. induction before as [|id0 before IH]; intros st0 Hbefore Hid.
  - simpl in Hbefore. rewrite run_ret in Hbefore. inversion Hbefore; subst st0.
    simpl. by rewrite run_bind, Hid.
  - rewrite <- app_comm_cons, for_each_cons. rewrite for_each_cons in Hbefore.
    destruct (body id0 env st0) as [[[]|e0] st1]; [by apply IH | done].
Qed.

Lemma time_sleep_run (seconds : Z) (st : state) :
  ∃ r : result unit, Worker.time_sleep seconds env st = (r, st).
Proof.
  unfold Worker.time_sleep. destruct (_ || _); [by eexists |].
  destruct (seconds <? 0); by eexists.
Qed.

Lemma loop_S (n : nat) (st : state) :
  Worker.loop (S n) env st =
    match Worker.process_calendar env st with
    | (Ok _, st') =>
        match Worker.time_sleep (collecting_interval_seconds (self st')) env st' with
        | (Ok _, st'') => Worker.loop n env st''
        | (Raise e, st'') => (Raise e, st'')
        end
    | (Raise e, st') => (Raise e, st')
    end.
Proof.
  cbn [Worker.loop]. rewrite run_bind.
  destruct (Worker.process_calendar env st) as [[[]|e] st']; [| done].
  by rewrite run_bind, run_gets, run_bind.
Qed.

Lemma loop_inv (n : nat) (st : state) : inv st → inv (Worker.loop n env st).2.
Proof.
  revert st. induction n as [|n IH]; intros st Hinv; [done |].
  rewrite loop_S. pose proof (for_each_inv (seq 1 6) st Hinv) as H.
  fold Worker.process_calendar in H.
  destruct (Worker.process_calendar env st) as [[[]|e] st']; [| done].
  destruct (time_sleep_run (collecting_interval_seconds (self st')) st')
    as [[[]|e] ->]; [by apply IH | done].
Qed.

End Group.

(** * A metric, once found, stays the one found *)

Lemma scan_app_found (metrics more : list YasnoMetric) (key : string)
    (m : YasnoMetric) :
  Worker.scan metrics key = Some m → Worker.scan (metrics ++ more) key = Some m.
Proof.
  induction metrics as [|m' metrics IH]; simpl; [done |].
  by destruct (String.eqb (yasno_key m') key).
Qed.

Lemma found_worker_only (key : string) (m : YasnoMetric) :
  worker_only (found key m).
Proof. intros st st' Hself. unfold found. by rewrite Hself. Qed.

Lemma keeps_ensure_metric_found (key other : string) (m : YasnoMetric) :
  keeps (found key m) (Worker.ensure_metric other).
Proof.
  intros env st HP. unfold found in *.
  destruct (ensure_metric_worker env other st)
    as [Hsame|(m' & _ & _ & _ & Hst)].
  - by rewrite Hsame.
  - rewrite Hst. cbn. by apply scan_app_found.
Qed.

(** * The status of a response is not looked at *)

Section Restatus.

Variable f : Z → Z.
Variable env : environment.

Lemma restatus_ensure_metric (key : string) (st : state) :
  Worker.ensure_metric key (restatus f env) st = Worker.ensure_metric key env st.
Proof. by rewrite !ensure_metric_run, !init_run. Qed.

Lemma restatus_mapM (keys : list string) (st : state) :
  mapM Worker.ensure_metric keys (restatus f env) st
    = mapM Worker.ensure_metric keys env st.
Proof.
  revert st. induction keys as [|key keys IH]; intros st; [done |].
  cbn [mapM]. rewrite !run_bind, restatus_ensure_metric.
  destruct (Worker.ensure_metric key env st) as [[m|e] st1]; [| done].
  rewrite !run_bind, IH. by destruct (mapM Worker.ensure_metric keys env st1) as [[ms|e] st2].
Qed.

Lemma restatus_walk_loop (cs : list component) (b p : bool) (st : state) :
  Worker.walk_loop cs b p (restatus f env) st = Worker.walk_loop cs b p env st.
Proof.
  revert p st. induction cs as [|c cs IH]; intros p st; [done |].
  rewrite !walk_loop_cons.
  change (reading (restatus f env) (now_calls st)) with (reading env (now_calls st)).
  destruct (String.eqb (component_name c) "VEVENT"); [| apply IH].
  destruct (within_event (reading env (now_calls st)) c) as [[|]|e];
    [| apply IH | done].
  destruct (Worker.summary_is (summary c) Worker.no_power); [done |].
  destruct (Worker.summary_is (summary c) Worker.possible_outage); apply IH.
Qed.

Lemma restatus_lookup_and_set (key : string) (value : Z) (label : string)
    (st : state) :
  Worker.lookup_and_set key value label (restatus f env) st
    = Worker.lookup_and_set key value label env st.
Proof.
  rewrite !lookup_and_set_run.
  destruct (Worker.scan (metrics_collector (self st)) key); [| done].
  by rewrite !set_run_float.
Qed.

Lemma restatus_write_gauges (blackout possible_blackout : bool) (g : string)
    (st : state) :
  Worker.write_gauges blackout possible_blackout g (restatus f env) st
    = Worker.write_gauges blackout possible_blackout g env st.
Proof.
  unfold Worker.write_gauges.
  destruct (Worker.gauge_values blackout possible_blackout) as [[vb vp] vn].
  rewrite !run_bind, !run_gets, !run_bind, restatus_lookup_and_set.
  destruct (Worker.lookup_and_set _ vb g env st) as [[[]|e] st1]; [| done].
  rewrite !run_bind, !run_gets, !run_bind, restatus_lookup_and_set.
  destruct (Worker.lookup_and_set _ vp g env st1) as [[[]|e] st2]; [| done].
  rewrite !run_bind, !run_gets. apply restatus_lookup_and_set.
Qed.

Lemma restatus_process_group (id : nat) (st : state) :
  Worker.process_group id (restatus f env) st = Worker.process_group id env st.
Proof.
  unfold Worker.process_group. rewrite !run_bind, !run_gets, !run_bind, restatus_mapM.
  destruct (mapM Worker.ensure_metric _ env st) as [[ms|e] st1]; [| done].
  rewrite !run_bind, !requests_get_run. cbn [network restatus].
  destruct (network env (get_calls st1) _) as [response|]; [| done].
  rewrite !run_bind, !Calendar_from_ical_run. cbn [content from_ical restatus].
  destruct (from_ical env (content response)) as [gcal|]; [| done].
  rewrite !run_bind, restatus_walk_loop.
  destruct (Worker.walk_loop gcal false false env (tick_get st1))
    as [[[b p]|e] st2]; [| done].
  apply restatus_write_gauges.
Qed.

Lemma restatus_for_each (ids : list nat) (st : state) :
  Worker.for_each ids Worker.process_group (restatus f env) st
    = Worker.for_each ids Worker.process_group env st.
Proof.
  revert st. induction ids as [|id ids IH]; intros st; [done |].
  rewrite !for_each_cons, restatus_process_group.
  destruct (Worker.process_group id env st) as [[[]|e] st1]; [apply IH | done].
Qed.

Lemma restatus_loop (n : nat) (st : state) :
  Worker.loop n (restatus f env) st = Worker.loop n env st.
Proof.
  revert st. induction n as [|n IH]; intros st; [done |].
  rewrite !loop_S. unfold Worker.process_calendar. rewrite restatus_for_each.
  destruct (Worker.for_each (seq 1 6) Worker.process_group env st)
    as [[[]|e] st1]; [| done].
  assert (Hsleep : Worker.time_sleep (collecting_interval_seconds (self st1))
                     (restatus f env) st1
                   = Worker.time_sleep (collecting_interval_seconds (self st1))
                       env st1).
  { unfold Worker.time_sleep. destruct (_ || _); [done |].
    by destruct (_ <? 0). }
  rewrite Hsleep.
  destruct (time_sleep_run env (collecting_interval_seconds (self st1)) st1)
    as [[[]|e] ->]; [apply IH | done].
Qed.

End Restatus.

(** * Where a [YasnoMetricException] can go *)

Section Contained.

Context {A B : Type}.




Lemma contains_asks (f : environment → A) :
  contains_YasnoMetricException (asks f).
Proof. by intros env st key. Qed.

Lemma contains_raise (e : exception) :
  (∀ key : string, e ≠ YasnoMetricException key) →
  contains_YasnoMetricException (raise e : M A).
Proof. intros He env st key. simpl. intros [= H]. by apply (He key). Qed.

Lemma contains_try (m : M A) :
  contains_YasnoMetricException (try_except_YasnoMetricException m).
Proof.
  intros env st key. unfold try_except_YasnoMetricException.
  destruct (m env st) as [[a|e] st']; [done |]. by destruct e.
Qed.



End Contained.

Lemma contains_modify (f : state → state) :
  contains_YasnoMetricException (modify f).
Proof. by intros env st key. Qed.










(** * A status key without a metric *)







(** * The name derivation: the claims *)

(** C4.  For every non-empty key the derived name is what the rule of the
    specification gives: dots replaced, the first character lower-cased, and
    before each later upper-case letter a [_] unless the last character put
    out is one.  The conversion returns it when the name check passes.  The
    constructor then registers the gauge under ["yasno_"] followed by it:
    whenever the constructor returns, that is the name it registered, and it
    does return, with a new object for the key, when the name check passes,
    the metrics library takes the name and no gauge has it yet. *)
Theorem derivation_follows_the_rule (key : string) :
  key ≠ EmptyString →
  YasnoMetric.derived_form key = Ok (spec_derive key)
  ∧ YasnoMetric.convert_yasno_key_to_prometheus_name key =
      (if bool_decide (is_Some (Re.re_match (spec_derive key)))
       then Ok (spec_derive key)
       else Raise (YasnoMetricException key))
  ∧ (∀ (env : environment) (st st' : state) (m : YasnoMetric),
       YasnoMetric.__init__ key env st = (Ok m, st') →
       yasno_key m = key
       ∧ name m = "yasno_" +:+ spec_derive key
       ∧ REGISTRY st' = registry_add ("yasno_" +:+ spec_derive key) (REGISTRY st))
  ∧ (∀ (env : environment) (st : state),
       is_Some (Re.re_match (spec_derive key)) →
       valid_metric_name env ("yasno_" +:+ spec_derive key) = true →
       REGISTRY st !! ("yasno_" +:+ spec_derive key) = None →
       YasnoMetric.__init__ key env st =
         (Ok {| obj := allocated st; yasno_key := key;
                name := "yasno_" +:+ spec_derive key |},
          set_REGISTRY
            (registry_add ("yasno_" +:+ spec_derive key) (REGISTRY st))
            (tick_allocated st))).
Proof.
  intros Hne. split; [by apply derived_form_spec |]. split.
  { rewrite convert_unfold. by destruct key. }
  split.
  - intros env st st' m. rewrite init_run, convert_unfold.
    destruct key as [|c key]; [done |].
    case_bool_decide; [| done]. simpl.
    destruct (negb _); [done |]. destruct (decide _); [done |].
    by intros [= <- <-].
  - intros env st Hmatch Hvalid Hnone. rewrite init_run, convert_unfold.
    destruct key as [|c key]; [done |].
    rewrite bool_decide_true by done. cbv zeta. rewrite Hvalid. cbn [negb].
    destruct (decide _) as [Hsome|_]; [| done].
    rewrite Hnone in Hsome. by destruct Hsome.
Qed.

(** The two examples of the source, [bms_bmsStatus.maxCellTemp] and
    [pd.ext4p8Port]: the names derived, and the constructor run in the state
    in which [main] enters the loop. *)
Lemma derivation_follows_the_rule_witness :
  YasnoMetric.convert_yasno_key_to_prometheus_name "bms_bmsStatus.maxCellTemp"
    = Ok "bms_bms_status_max_cell_temp"
  ∧ YasnoMetric.convert_yasno_key_to_prometheus_name "pd.ext4p8Port"
    = Ok "pd_ext4p8_port"
  ∧ YasnoMetric.__init__ "bms_bmsStatus.maxCellTemp"
      (plain_env (fun _ => 0) 200 []) (main_state 300)
    = (Ok {| obj := 0; yasno_key := "bms_bmsStatus.maxCellTemp";
             name := "yasno_bms_bms_status_max_cell_temp" |},
       set_REGISTRY (registry_add "yasno_bms_bms_status_max_cell_temp" ∅)
         (tick_allocated (main_state 300)))
  ∧ YasnoMetric.__init__ "pd.ext4p8Port"
      (plain_env (fun _ => 0) 200 []) (main_state 300)
    = (Ok {| obj := 0; yasno_key := "pd.ext4p8Port";
             name := "yasno_pd_ext4p8_port" |},
       set_REGISTRY (registry_add "yasno_pd_ext4p8_port" ∅)
         (tick_allocated (main_state 300))).
Proof.
  split; [| split; [| split]].
  - rewrite (proj1 (proj2 (derivation_follows_the_rule
               "bms_bmsStatus.maxCellTemp" ltac:(discriminate)))).
    reflexivity.
  - rewrite (proj1 (proj2 (derivation_follows_the_rule
               "pd.ext4p8Port" ltac:(discriminate)))).
    reflexivity.
  - exact (proj2 (proj2 (proj2 (derivation_follows_the_rule
             "bms_bmsStatus.maxCellTemp" ltac:(discriminate))))
             (plain_env (fun _ => 0) 200 []) (main_state 300)
             (ex_intro _ _ eq_refl) eq_refl eq_refl).
  - exact (proj2 (proj2 (proj2 (derivation_follows_the_rule
             "pd.ext4p8Port" ltac:(discriminate))))
             (plain_env (fun _ => 0) 200 []) (main_state 300)
             (ex_intro _ _ eq_refl) eq_refl eq_refl).
Defined.

(** C8.  The derivation is a function of the key, and a name it returns is
    a fixed point: converting it again returns it unchanged. *)
Theorem derivation_is_idempotent (key new : string) :
  YasnoMetric.convert_yasno_key_to_prometheus_name key = Ok new →
  YasnoMetric.convert_yasno_key_to_prometheus_name new = Ok new
  ∧ YasnoMetric.derived_form new = Ok new.
Proof.
  intros H. apply convert_ok in H as (Hne & -> & Hmatch).
  pose proof (spec_derive_settled _ (spec_derive_is_settled key)) as Hfix.
  pose proof (spec_derive_nonempty key Hne) as Hne'.
  split.
  - rewrite convert_unfold, Hfix.
    destruct (spec_derive key); [done |]. by rewrite bool_decide_true.
  - by rewrite derived_form_spec, Hfix.
Qed.

Lemma derivation_is_idempotent_witness :
  YasnoMetric.convert_yasno_key_to_prometheus_name "bms_bms_status_max_cell_temp"
    = Ok "bms_bms_status_max_cell_temp".
Proof.
  exact (proj1 (derivation_is_idempotent "bms_bmsStatus.maxCellTemp"
                  "bms_bms_status_max_cell_temp" eq_refl)).
Defined.

(** C10.  The conversion raises [IndexError] exactly for the empty key: there
    [key[0]] fails before any name is derived or checked, the exception is
    not the [YasnoMetricException] of the name check, and the handler in
    [process_calendar] does not catch it.  For a non-empty key neither
    [key[0]] nor [new[-1]] fails: a name is derived, and the conversion
    returns it or raises [YasnoMetricException]. *)
Theorem empty_key_raises_IndexError (key : string) :
  (YasnoMetric.convert_yasno_key_to_prometheus_name key = Raise IndexError
   ↔ key = EmptyString)
  ∧ (YasnoMetric.derived_form key = Raise IndexError ↔ key = EmptyString)
  ∧ (key = EmptyString →
     ∀ (env : environment) (st : state),
       Worker.scan (metrics_collector (self st)) key = None →
       (Worker.ensure_metric key env st).1 = Raise IndexError)
  ∧ (key ≠ EmptyString →
     ∃ new : string,
       YasnoMetric.derived_form key = Ok new
       ∧ (YasnoMetric.convert_yasno_key_to_prometheus_name key = Ok new
          ∨ YasnoMetric.convert_yasno_key_to_prometheus_name key
            = Raise (YasnoMetricException key))).
Proof.
  split; [| split; [| split]].
  - rewrite convert_unfold. destruct key; [done |].
    split; [| done]. by case_bool_decide.
  - destruct key as [|c key]; [done |].
    rewrite derived_form_spec by done. done.
  - intros -> env st Hscan. by rewrite ensure_metric_run, Hscan.
  - intros Hne. exists (spec_derive key).
    split; [by apply derived_form_spec |].
    rewrite convert_unfold. destruct key; [done |].
    case_bool_decide; auto.
Qed.

Lemma empty_key_raises_IndexError_witness :
  (Worker.ensure_metric EmptyString (plain_env (fun _ => 0) 200 []) (main_state 300)).1
    = Raise IndexError
  ∧ ∃ new : string, YasnoMetric.derived_form "blackout" = Ok new.
Proof.
  split.
  - exact (proj1 (proj2 (proj2 (empty_key_raises_IndexError EmptyString)))
             eq_refl (plain_env (fun _ => 0) 200 []) (main_state 300) eq_refl).
  - destruct (proj2 (proj2 (proj2 (empty_key_raises_IndexError "blackout")))
                ltac:(discriminate)) as (new & Hnew & _).
    by exists new.
Defined.

(** C6.  The name check matches the pattern at the start of the derived name
    only.  The conversion raises [YasnoMetricException] exactly when that
    match fails, which depends on the first character alone; then no gauge is
    registered and no metric is kept for the key.  A derived name with a
    valid first character passes whatever follows it, and the constructor
    goes on to register the gauge ["yasno_"] followed by the name, which
    succeeds when the metrics library takes the name and holds no gauge of
    that name yet. *)
Theorem name_check_is_anchored_at_start_only (key : string) :
  (∀ new : string,
     YasnoMetric.derived_form key = Ok new →
     (YasnoMetric.convert_yasno_key_to_prometheus_name key
        = Raise (YasnoMetricException key) ↔ Re.re_match new = None)
     ∧ (YasnoMetric.convert_yasno_key_to_prometheus_name key = Ok new
        ↔ is_Some (Re.re_match new))
     ∧ (is_Some (Re.re_match new)
        ↔ ∃ (c : ascii) (rest : string),
            new = String c rest ∧ Re.head_class c = true))
  ∧ (YasnoMetric.convert_yasno_key_to_prometheus_name key
       = Raise (YasnoMetricException key) →
     ∀ (env : environment) (st : state),
       (YasnoMetric.__init__ key env st).1 = Raise (YasnoMetricException key)
       ∧ REGISTRY (YasnoMetric.__init__ key env st).2 = REGISTRY st
       ∧ REGISTRY (Worker.ensure_metric key env st).2 = REGISTRY st
       ∧ metrics_collector (self (Worker.ensure_metric key env st).2)
         = metrics_collector (self st))
  ∧ (∀ (new : string) (env : environment) (st : state),
       YasnoMetric.convert_yasno_key_to_prometheus_name key = Ok new →
       valid_metric_name env ("yasno_" +:+ new) = true →
       REGISTRY st !! ("yasno_" +:+ new) = None →
       ∃ (m : YasnoMetric) (st' : state),
         YasnoMetric.__init__ key env st = (Ok m, st')
         ∧ name m = "yasno_" +:+ new
         ∧ REGISTRY st' = registry_add ("yasno_" +:+ new) (REGISTRY st)).
Proof.
  split; [| split].
  - intros new Hnew. apply derived_form_ok in Hnew as [Hne ->].
    rewrite convert_unfold. destruct key as [|c0 key0]; [done |].
    set (new := spec_derive (String c0 key0)).
    split; [| split].
    + case_bool_decide as Hm; split; try done.
      * intros Hnone. rewrite Hnone in Hm. by destruct Hm.
      * intros _. destruct (Re.re_match new) eqn:E; [| done].
        exfalso. apply Hm. by eexists.
    + case_bool_decide as Hm; split; done.
    + split.
      * destruct new as [|c rest]; [by intros [? ?] |].
        intros H. exists c, rest. split; [done |].
        by apply (re_match_head c rest).
      * intros (c & rest & -> & Hc). by apply (re_match_head c rest).
  - intros Hfail env st. rewrite ensure_metric_run, !init_run, Hfail. simpl.
    split; [done |]. split; [done |].
    by destruct (Worker.scan (metrics_collector (self st)) key).
  - intros new env st Hconv Hvalid Hfree. rewrite init_run, Hconv. simpl.
    rewrite Hvalid. simpl. destruct (decide _) as [Hsome|_].
    { rewrite Hfree in Hsome. by destruct Hsome. }
    by eexists _, _.
Qed.

(** The key [a-b]: its derived name [a-b] is no identifier of the data
    model, yet it passes the name check, and a library that admits the name
    registers the gauge [yasno_a-b]. *)
Lemma name_check_is_anchored_at_start_only_witness :
  Re.fullmatch "a-b" = false
  ∧ YasnoMetric.convert_yasno_key_to_prometheus_name "a-b" = Ok "a-b"
  ∧ ∃ (m : YasnoMetric) (st' : state),
      YasnoMetric.__init__ "a-b" (lenient_env (fun _ => 0) 200 []) (main_state 300)
        = (Ok m, st')
      ∧ name m = "yasno_a-b"
      ∧ REGISTRY st' = registry_add "yasno_a-b" ∅.
Proof.
  split; [reflexivity |]. split; [reflexivity |].
  exact (proj2 (proj2 (name_check_is_anchored_at_start_only "a-b"))
           "a-b" (lenient_env (fun _ => 0) 200 []) (main_state 300)
           eq_refl eq_refl eq_refl).
Defined.

(** * The worker: the claims *)

Lemma plain_env_accepts (clock : nat → Z) (status : Z) (feed : list component) :
  accepts_identifiers (plain_env clock status feed).
Proof. by intros n Hn. Qed.

Lemma outage_env_accepts (k : nat) (feed : list component) :
  accepts_identifiers (outage_env k feed).
Proof. by intros n Hn. Qed.

Lemma garbled_env_accepts (k : nat) (feed : list component) :
  accepts_identifiers (garbled_env k feed).
Proof. by intros n Hn. Qed.

Lemma inv_main_state (collecting_interval_seconds : Z) :
  inv (main_state collecting_interval_seconds).
Proof. split; [done |]. left. done. Qed.

(** C1.  In a running exporter, a group that completes has made its three
    writes together: the registry afterwards is the one before (no sample
    changed by the lookups) with the three values written at the label of
    the group, exactly one of them 1 and the other two 0.  A group completes
    when its request is answered, the body parses and every event of the
    calendar has a start and an end, both timezone-aware.  A group that ends
    with an exception has written no sample at all.  After a cycle that
    completes, exactly one gauge is 1 for each of the six groups. *)
Theorem exactly_one_gauge_per_group (env : environment) (st : state) (id : nat) :
  accepts_identifiers env → inv st →
  (∀ st' : state,
     Worker.process_group id env st = (Ok tt, st') →
     ∃ (blackout possible_blackout : bool) (r1 : gmap string (gmap string Z)),
       inv st'
       ∧ same_samples (REGISTRY st) r1
       ∧ REGISTRY st' =
           registry_written (Worker.gauge_values blackout possible_blackout)
             (Worker.group_name id) r1
       ∧ exactly_one (REGISTRY st') (Worker.group_name id))
  ∧ (∀ (response : Response) (gcal : list component),
       network env (get_calls st) (Worker.url (Worker.group_name id))
         = Some response →
       from_ical env (content response) = Some gcal →
       forallb well_timed gcal = true →
       ∃ st' : state, Worker.process_group id env st = (Ok tt, st'))
  ∧ (∀ e : exception,
       (Worker.process_group id env st).1 = Raise e →
       same_samples (REGISTRY st) (REGISTRY (Worker.process_group id env st).2))
  ∧ (∀ st' : state,
       Worker.process_calendar env st = (Ok tt, st') →
       ∀ id' : nat, id' ∈ seq 1 6 →
         exactly_one (REGISTRY st') (Worker.group_name id')).
Proof.
  intros Henv Hinv. split; [| split; [| split]].
  - intros st' Hok.
    pose proof (process_group_inv env Henv id st Hinv) as Hinv'.
    destruct (process_group_run env Henv id st Hinv)
      as (st1 & _ & _ & Hsame & _ & _ & Hrun).
    destruct (network env _ _) as [response|]; [| by rewrite Hrun in Hok].
    destruct (from_ical env _) as [gcal|]; [| by rewrite Hrun in Hok].
    destruct Hrun as ([[b p]|e] & k & _ & Hrun); [| by rewrite Hrun in Hok].
    destruct Hrun as (st'' & Hrun & _ & Hreg).
    rewrite Hok in Hrun, Hinv'. injection Hrun as <-.
    exists b, p, (REGISTRY st1).
    split; [done |]. split; [done |]. split; [done |].
    rewrite Hreg. apply exactly_one_written.
  - intros response gcal Hnet Hical Htimed.
    destruct (process_group_run env Henv id st Hinv)
      as (st1 & _ & _ & _ & _ & _ & Hrun).
    rewrite Hnet, Hical in Hrun. destruct Hrun as (r & k & Hwalk & Hrun).
    destruct (walk_loop_total env gcal false (tick_get st1) Htimed)
      as (v & k' & Hwalk' & _).
    rewrite Hwalk' in Hwalk. injection Hwalk as <- _.
    destruct Hrun as (st' & Hrun & _). by exists st'.
  - by apply process_group_frame.
  - intros st' Hrun id' Hin.
    apply (for_each_exactly_one env Henv (seq 1 6) st st'); try done.
    apply NoDup_ListNoDup, List.seq_NoDup.
Qed.

(** Group 1 at the instant 7, both events of [overlapping_feed] active. *)
Lemma exactly_one_gauge_per_group_witness :
  ∃ st' : state,
    Worker.process_group 1 (plain_env (fun _ => 7) 200 overlapping_feed)
      (main_state 300) = (Ok tt, st')
    ∧ exactly_one (REGISTRY st') "group_1".
Proof.
  pose proof (exactly_one_gauge_per_group
                (plain_env (fun _ => 7) 200 overlapping_feed)
                (main_state 300) 1
                (plain_env_accepts _ _ _) (inv_main_state 300))
    as (Hok & Hruns & _).
  destruct (Hruns _ _ eq_refl eq_refl eq_refl) as (st' & Hrun).
  exists st'. split; [exact Hrun |].
  destruct (Hok st' Hrun) as (b & p & r1 & _ & _ & _ & Hone). exact Hone.
Defined.

(** C5.  Once [ensure_metric] has returned a metric for a key, asking again
    returns that same object, found by the lookup: nothing is constructed,
    registered or appended, only the lookup is logged.  A metric that is
    found for its key stays the one found, whatever happens next: after
    [ensure_metric] for any key, after a group, a cycle or any number of
    iterations of the loop, however they end.  The keys of the metrics the
    worker holds never repeat: [ensure_metric] keeps them distinct whatever
    its outcome, and so they are after any number of cycles of the loop. *)
Theorem metric_is_created_once (env : environment) (key : string) :
  (∀ (st st1 : state) (m : YasnoMetric),
     Worker.ensure_metric key env st = (Ok (Some m), st1) →
     Worker.ensure_metric key env st1
       = (Ok (Some m), add_log (debug_found (name m) key) st1)
     ∧ (Worker.get_metric_by_yasno_key key env st1).1 = Ok (Some m)
     ∧ found key m st1)
  ∧ (∀ (st : state) (m : YasnoMetric),
       found key m st →
       (∀ other : string, found key m (Worker.ensure_metric other env st).2)
       ∧ (∀ id : nat, found key m (Worker.process_group id env st).2)
       ∧ found key m (Worker.process_calendar env st).2
       ∧ (∀ n : nat,
            found key m (Worker.loop n env st).2
            ∧ (Worker.ensure_metric key env (Worker.loop n env st).2).1
              = Ok (Some m)))
  ∧ (∀ st : state,
       NoDup (collector_keys st) →
       NoDup (collector_keys (Worker.ensure_metric key env st).2))
  ∧ (∀ (collecting_interval_seconds : Z) (n : nat),
       NoDup (collector_keys
                (Worker.loop n env (main_state collecting_interval_seconds)).2)).
Proof.
  split; [| split; [| split]].
  - intros st st1 m Hrun. apply ensure_metric_returns in Hrun.
    split; [by apply ensure_metric_found |].
    split; [by rewrite get_metric_by_yasno_key_run, Hrun | done].
  - intros st m Hfound.
    split; [intros other; by apply keeps_ensure_metric_found |].
    split; [intros id; apply keeps_process_group;
            [apply found_worker_only
            | intros other; apply keeps_ensure_metric_found | done] |].
    split; [apply keeps_process_calendar;
            [apply found_worker_only
            | intros other; apply keeps_ensure_metric_found | done] |].
    intros n.
    assert (Hn : found key m (Worker.loop n env st).2).
    { apply keeps_loop;
        [apply found_worker_only
        | intros other; apply keeps_ensure_metric_found | done]. }
    split; [done |]. by rewrite (ensure_metric_found env key _ m Hn).
  - intros st. apply keeps_ensure_metric_NoDup.
  - intros interval n. apply keeps_loop.
    + intros st st' Hself. unfold collector_keys. by rewrite Hself.
    + apply keeps_ensure_metric_NoDup.
    + apply NoDup_nil_2.
Qed.

(** The key [blackout] from the state in which [main] enters the loop: the
    metric made for it is the one returned when it is asked for again at
    once, and again after two iterations of the loop. *)
Lemma metric_is_created_once_witness :
  ∃ (m : YasnoMetric) (st1 : state),
    Worker.ensure_metric "blackout" (plain_env (fun _ => 0) 200 []) (main_state 300)
      = (Ok (Some m), st1)
    ∧ (Worker.ensure_metric "blackout" (plain_env (fun _ => 0) 200 []) st1).1
      = Ok (Some m)
    ∧ (Worker.ensure_metric "blackout" (plain_env (fun _ => 0) 200 [])
         (Worker.loop 2 (plain_env (fun _ => 0) 200 []) st1).2).1
      = Ok (Some m).
Proof.
  eexists _, _. split; [reflexivity |].
  pose proof (metric_is_created_once (plain_env (fun _ => 0) 200 []) "blackout")
    as (Hagain & Hstays & _).
  destruct (Hagain (main_state 300) _ _ eq_refl) as (Hrun & _ & Hfound).
  split; [by rewrite Hrun |].
  exact (proj2 (proj2 (proj2 (proj2 (Hstays _ _ Hfound))) 2%nat)).
Defined.

(** C3, as stated, fails.  The third request of the first cycle (the feed of
    group_3) raises in one environment, and is answered with status 500 and a
    body that is no calendar in the other.  In both the exception leaves
    [process_calendar] and [loop]: the loop is over after three requests,
    groups 4 to 6 are never polled, and nothing was logged as an error. *)
Lemma fetch_failure_is_not_caught :
  (Worker.process_calendar (outage_env 2 []) (main_state 300)).1
    = Raise RequestException
  ∧ (Worker.loop 2 (outage_env 2 []) (main_state 300)).1 = Raise RequestException
  ∧ get_calls (Worker.loop 2 (outage_env 2 []) (main_state 300)).2 = 3%nat
  ∧ errors_logged (Worker.loop 2 (outage_env 2 []) (main_state 300)).2 = []
  ∧ (Worker.loop 2 (garbled_env 2 []) (main_state 300)).1
    = Raise (ValueError "Internal Server Error")
  ∧ get_calls (Worker.loop 2 (garbled_env 2 []) (main_state 300)).2 = 3%nat
  ∧ errors_logged (Worker.loop 2 (garbled_env 2 []) (main_state 300)).2 = [].
Proof. vm_compute. repeat split. Qed.

(** C3, amended.  In a running exporter, when the request of a group raises,
    or its body does not parse, the exception is not caught: it leaves the
    body of the group, [process_calendar] and [loop], which ends there,
    without a record of [log.error].  The failing group has written nothing:
    every sample is as it was when the group started, nothing is cleared.
    The status of a response is not looked at: with the status of every
    response changed in any way, the group, the cycle and the loop do what
    they do with the statuses as they are. *)
Theorem fetch_failure_ends_the_loop (env : environment) (st0 st : state)
    (before after : list nat) (id : nat) :
  accepts_identifiers env → inv st0 →
  seq 1 6 = before ++ id :: after →
  Worker.for_each before Worker.process_group env st0 = (Ok tt, st) →
  ((network env (get_calls st) (Worker.url (Worker.group_name id)) = None
    ∨ ∃ response : Response,
        network env (get_calls st) (Worker.url (Worker.group_name id))
          = Some response
        ∧ from_ical env (content response) = None) →
   ∃ (e : exception) (st' : state),
     (e = RequestException ∨ ∃ data : string, e = ValueError data)
     ∧ Worker.process_group id env st = (Raise e, st')
     ∧ same_samples (REGISTRY st) (REGISTRY st')
     ∧ errors_logged st' = errors_logged st
     ∧ Worker.process_calendar env st0 = (Raise e, st')
     ∧ ∀ n : nat, Worker.loop (S n) env st0 = (Raise e, st'))
  ∧ (∀ f : Z → Z,
       Worker.process_group id (restatus f env) st
         = Worker.process_group id env st
       ∧ Worker.process_calendar (restatus f env) st0
         = Worker.process_calendar env st0
       ∧ ∀ n : nat, Worker.loop n (restatus f env) st0 = Worker.loop n env st0).
Proof.
  intros Henv Hinv0 Hids Hbefore.
  assert (Hinv : inv st).
  { pose proof (for_each_inv env Henv before st0 Hinv0) as H.
    by rewrite Hbefore in H. }
  destruct (process_group_run env Henv id st Hinv)
    as (st1 & _ & _ & Hsame & _ & Herr & Hrun).
  split.
  - intros Hfail.
    assert (Hgroup : ∃ e : exception,
              (e = RequestException ∨ ∃ data : string, e = ValueError data)
              ∧ Worker.process_group id env st = (Raise e, tick_get st1)).
    { destruct Hfail as [Hnet|(response & Hnet & Hical)].
      - rewrite Hnet in Hrun. exists RequestException. split; [by left | done].
      - rewrite Hnet, Hical in Hrun. exists (ValueError (content response)).
        split; [right; by eexists | done]. }
    destruct Hgroup as (e & He & Hgroup).
    exists e, (tick_get st1). split; [done |]. split; [done |].
    split; [done |]. split; [done |].
    assert (Hcal : Worker.process_calendar env st0 = (Raise e, tick_get st1)).
    { unfold Worker.process_calendar. rewrite Hids.
      by apply (for_each_raises env before after id _ st0 st). }
    split; [done |]. intros n. by rewrite loop_S, Hcal.
  - intros f. split; [apply restatus_process_group |].
    split; [apply restatus_for_each |]. intros n. apply restatus_loop.
Qed.

(** Group 3 in the first cycle, its request raising. *)
Lemma fetch_failure_ends_the_loop_witness :
  ∃ (e : exception) (st' : state),
    (e = RequestException ∨ ∃ data : string, e = ValueError data)
    ∧ ∀ n : nat,
        Worker.loop (S n) (outage_env 2 []) (main_state 300) = (Raise e, st').
Proof.
  assert (Hbefore :
    Worker.for_each [1; 2]%nat Worker.process_group (outage_env 2 []) (main_state 300)
    = (Ok tt,
       (Worker.for_each [1; 2]%nat Worker.process_group (outage_env 2 [])
          (main_state 300)).2))
    by (vm_compute; reflexivity).
  assert (Hnet :
    network (outage_env 2 [])
      (get_calls (Worker.for_each [1; 2]%nat Worker.process_group
                    (outage_env 2 []) (main_state 300)).2)
      (Worker.url (Worker.group_name 3)) = None)
    by (vm_compute; reflexivity).
  destruct (proj1 (fetch_failure_ends_the_loop (outage_env 2 []) (main_state 300) _
                     [1; 2]%nat [4; 5; 6]%nat 3
                     (outage_env_accepts _ _) (inv_main_state 300) eq_refl Hbefore)
              (or_introl Hnet))
    as (e & st' & He & _ & _ & _ & _ & Hloop).
  exists e, st'. split; [exact He | exact Hloop].
Defined.

(** C9, as stated, fails.  The clock reads 5, then 6; the feed has a
    "no power" and a "possible outage" event, both over (5, 10).  The scan
    reads the clock twice, tests the first event at 5 and the second at 6,
    and ends with possible_blackout alone, which the single-instant
    evaluator yields at no instant at all.  Nor is a reading normalized to
    UTC: on a machine two hours ahead of UTC, half an hour into a "no power"
    event of one hour, the reading is two and a half hours and the event is
    not seen. *)
Lemma clock_is_read_for_each_event :
  Worker.walk_loop overlapping_feed false false
    (plain_env (fun n => 5 + Z.of_nat n) 200 overlapping_feed) (main_state 300)
    = (Ok (false, true), advance_now 2 (main_state 300))
  ∧ now_calls (advance_now 2 (main_state 300)) = 2%nat
  ∧ (∀ now : Z, spec_evaluate now overlapping_feed false false ≠ (false, true))
  ∧ Worker.walk_loop [event Worker.no_power 0 3600000000] false false
      (zoned_env 7200000000 (fun _ => 1800000000)
         [event Worker.no_power 0 3600000000])
      (main_state 300)
    = (Ok (false, false), advance_now 1 (main_state 300))
  ∧ spec_evaluate 1800000000 [event Worker.no_power 0 3600000000] false false
    = (true, false).
Proof.
  split; [vm_compute; reflexivity |]. split; [reflexivity |].
  split; [| split; vm_compute; reflexivity].
  intros now. unfold overlapping_feed, spec_evaluate, active, event.
  cbn [component_name dtstart dtend summary Worker.summary_is].
  rewrite String.eqb_refl. cbn [andb].
  destruct ((5 <? now) && (now <? 10)); [| done].
  by rewrite String.eqb_refl.
Qed.

(** C9, amended.  The scan of a group's calendar reads the clock once for
    each event it visits, so at most once per event of the calendar, whether
    it ends normally or with an exception, and exactly once per event when
    it ends normally without a "no power" match.  It ends normally when
    every event has a start and an end, both timezone-aware.  Each reading
    serves the test of one event: the head event is tested at the reading
    taken for it, strictly between its start and its end, and the rest is
    scanned from the next reading on; an event without a start or an end
    ends the scan with [AttributeError], one whose time an aware datetime
    cannot be ordered with ends it with [TypeError].  A reading is the local
    wall-clock time of the machine taken as UTC without conversion: the
    instant of the reading plus the offset of the local time from UTC.  When
    the scan ends normally and the readings taken during it are all the same
    value, the result is that of the single-instant evaluator at that
    value. *)
Theorem clock_read_once_per_event (env : environment) (st : state)
    (components : list component) :
  (∃ (r : result (bool * bool)) (k : nat),
     Worker.walk_loop components false false env st = (r, advance_now k st)
     ∧ (k ≤ count_events components)%nat
     ∧ (∀ v : bool * bool,
          r = Ok v → v.1 = false → k = count_events components)
     ∧ (forallb well_timed components = true → ∃ v : bool * bool, r = Ok v)
     ∧ ∀ (now : Z) (v : bool * bool),
         (∀ j : nat, (j < k)%nat → reading env (now_calls st + j) = now) →
         r = Ok v → v = spec_evaluate now components false false)
  ∧ (∀ (c : component) (rest : list component) (seen : bool),
       component_name c = "VEVENT" →
       Worker.walk_loop (c :: rest) false seen env st =
         let now := reading env (now_calls st) in
         let continue (possible_blackout : bool) :=
           Worker.walk_loop rest false possible_blackout env (tick_now st) in
         match dtstart c, dtend c with
         | None, _ | Some _, None => (Raise AttributeError, tick_now st)
         | Some not_ordered, Some _ => (Raise TypeError, tick_now st)
         | Some (datetime_aware s), Some end_time =>
             if s <? now then
               match end_time with
               | not_ordered => (Raise TypeError, tick_now st)
               | datetime_aware e =>
                   if now <? e then
                     if Worker.summary_is (summary c) Worker.no_power
                     then (Ok (true, seen), tick_now st)
                     else continue
                            (Worker.summary_is (summary c) Worker.possible_outage
                             || seen)
                   else continue seen
               end
             else continue seen
         end)
  ∧ (∀ k : nat, reading env k = clock env k + utcoffset env k).
Proof.
  split; [apply walk_loop_run |]. split; [| done].
  - intros c rest seen Hev.
    rewrite walk_loop_cons, (proj2 (String.eqb_eq _ _) Hev).
    unfold within_event. cbv zeta.
    destruct (dtstart c) as [[s|]|], (dtend c) as [[e|]|]; try done.
    + destruct (s <? reading env (now_calls st)); [| done].
      destruct (reading env (now_calls st) <? e); [| done].
      destruct (Worker.summary_is (summary c) Worker.no_power); [done |].
      by destruct (Worker.summary_is (summary c) Worker.possible_outage).
    + by destruct (s <? reading env (now_calls st)).
Qed.

(** With the clock standing at 7 the scan of [overlapping_feed] is the
    single-instant evaluation at 7. *)
Lemma clock_read_once_per_event_witness :
  (Worker.walk_loop overlapping_feed false false
     (plain_env (fun _ => 7) 200 overlapping_feed) (main_state 300)).1
    = Ok (spec_evaluate 7 overlapping_feed false false).
Proof.
  destruct (proj1 (clock_read_once_per_event
                     (plain_env (fun _ => 7) 200 overlapping_feed) (main_state 300)
                     overlapping_feed))
    as (r & k & Hrun & _ & _ & Hok & Hspec).
  destruct (Hok eq_refl) as [v ->].
  rewrite Hrun. cbn [fst]. f_equal. apply (Hspec 7); [| reflexivity].
  intros j _. reflexivity.
Defined.




(** * Further properties of the metrics *)

Section Metrics.

Variable env : environment.

Lemma scan_first (metrics : list YasnoMetric) (key : string) (m : YasnoMetric) :
  Worker.scan metrics key = Some m →
  ∃ before after : list YasnoMetric,
    metrics = before ++ m :: after ∧ yasno_key m = key
    ∧ key ∉ yasno_key <$> before.
Proof.
  induction metrics as [|m' metrics IH]; simpl; [done |].
  destruct (String.eqb_spec (yasno_key m') key) as [Heq|Hne].
  - intros [= <-]. exists [], metrics. split; [done |]. split; [done |].
    apply not_elem_of_nil.
  - intros H. destruct (IH H) as (before & after & -> & Hkey & Hnotin).
    exists (m' :: before), after. split; [done |]. split; [done |].
    rewrite fmap_cons. apply not_elem_of_cons. done.
Qed.

Lemma scan_absent (metrics : list YasnoMetric) (key : string) :
  key ∉ yasno_key <$> metrics → Worker.scan metrics key = None.
Proof.
  intros Hnotin. destruct (Worker.scan metrics key) as [m|] eqn:Hscan; [| done].
  exfalso. apply Hnotin. apply scan_Some in Hscan as [Hin <-].
  by apply list_elem_of_fmap_2.
Qed.

(** X6.  [get_metric_by_yasno_key] never fails and changes nothing but the
    log.  It returns [False] exactly when no metric of the worker has the
    key; otherwise it returns the first metric of the list with that key,
    whatever comes after it. *)
Theorem lookup_returns_first_match (key : string) (st : state) :
  ∃ found : option YasnoMetric,
    (Worker.get_metric_by_yasno_key key env st).1 = Ok found
    ∧ self (Worker.get_metric_by_yasno_key key env st).2 = self st
    ∧ REGISTRY (Worker.get_metric_by_yasno_key key env st).2 = REGISTRY st
    ∧ (found = None ↔ key ∉ collector_keys st)
    ∧ ∀ m : YasnoMetric,
        found = Some m →
        ∃ before after : list YasnoMetric,
          metrics_collector (self st) = before ++ m :: after
          ∧ yasno_key m = key ∧ key ∉ yasno_key <$> before.
Proof.
  exists (Worker.scan (metrics_collector (self st)) key).
  rewrite get_metric_by_yasno_key_run. simpl.
  split; [done |]. split; [done |]. split; [done |]. split.
  - split; [apply scan_None | apply scan_absent].
  - intros m. apply scan_first.
Qed.

(** X7.  The handler in the loop over the keys catches the exception of the
    name check only.  When the name passes that check but the constructor of
    the gauge refuses it (the library rejects the name, or a gauge of that
    name is registered already), the [ValueError] leaves [ensure_metric];
    no metric is kept and the registry is unchanged.  So two different keys
    with the same derived name cannot both get a metric: once the first is
    created, asking for the second raises. *)
Theorem constructor_failure_escapes (key d : string) (st : state) :
  Worker.scan (metrics_collector (self st)) key = None →
  YasnoMetric.convert_yasno_key_to_prometheus_name key = Ok d →
  (valid_metric_name env ("yasno_" +:+ d) = false
   ∨ is_Some (REGISTRY st !! ("yasno_" +:+ d)) →
   Worker.ensure_metric key env st =
     (Raise (ValueError ("yasno_" +:+ d)),
      tick_allocated (add_log (debug_cannot_find key) st)))
  ∧ (∀ (other : string) (m : YasnoMetric) (st1 : state),
       Worker.ensure_metric key env st = (Ok (Some m), st1) →
       YasnoMetric.convert_yasno_key_to_prometheus_name other = Ok d →
       Worker.scan (metrics_collector (self st1)) other = None →
       (Worker.ensure_metric other env st1).1 = Raise (ValueError ("yasno_" +:+ d))
       ∧ self (Worker.ensure_metric other env st1).2 = self st1
       ∧ REGISTRY (Worker.ensure_metric other env st1).2 = REGISTRY st1).
Proof.
  intros Hscan Hconv.
  assert (Hfail : ∀ (k : string) (s : state),
            Worker.scan (metrics_collector (self s)) k = None →
            YasnoMetric.convert_yasno_key_to_prometheus_name k = Ok d →
            valid_metric_name env ("yasno_" +:+ d) = false
            ∨ is_Some (REGISTRY s !! ("yasno_" +:+ d)) →
            Worker.ensure_metric k env s =
              (Raise (ValueError ("yasno_" +:+ d)),
               tick_allocated (add_log (debug_cannot_find k) s))).
  { intros k s Hk Hd Hrefuse. rewrite ensure_metric_run, Hk, init_run, Hd.
    simpl. destruct (valid_metric_name env ("yasno_" +:+ d)) eqn:Hvalid; simpl.
    - destruct Hrefuse as [Hno|Hsome]; [done |].
      destruct (decide (is_Some (REGISTRY s !! ("yasno_" +:+ d)))); done.
    - done. }
  split; [by apply Hfail |].
  intros other m st1 Hrun Hother Hscan1.
  rewrite ensure_metric_run, Hscan, init_run, Hconv in Hrun. simpl in Hrun.
  destruct (negb (valid_metric_name env ("yasno_" +:+ d))); [done |].
  destruct (decide (is_Some (REGISTRY st !! ("yasno_" +:+ d)))); [done |].
  injection Hrun as Hm Hst1.
  assert (Hreg : is_Some (REGISTRY st1 !! ("yasno_" +:+ d))).
  { rewrite <- Hst1. simpl. unfold registry_add. rewrite lookup_insert_eq.
    by eexists. }
  rewrite (Hfail other st1 Hscan1 Hother (or_intror Hreg)). done.
Qed.

(** X8.  When the name check fails for a key that has no metric, the loop
    over the keys goes on ([continue]): nothing is raised, the worker and the
    registry are unchanged, and one error is logged.  Nothing remembers the
    failure: the next time the key is asked for, the same happens again and
    one more error is logged. *)
Theorem failing_key_is_logged_each_time (key : string) (st : state) :
  Worker.scan (metrics_collector (self st)) key = None →
  YasnoMetric.convert_yasno_key_to_prometheus_name key
    = Raise (YasnoMetricException key) →
  (Worker.ensure_metric key env st).1 = Ok None
  ∧ self (Worker.ensure_metric key env st).2 = self st
  ∧ REGISTRY (Worker.ensure_metric key env st).2 = REGISTRY st
  ∧ errors_logged (Worker.ensure_metric key env st).2
    = errors_logged st ++ [error_exception (YasnoMetricException key)]
  ∧ (Worker.ensure_metric key env (Worker.ensure_metric key env st).2).1 = Ok None
  ∧ errors_logged
      (Worker.ensure_metric key env (Worker.ensure_metric key env st).2).2
    = errors_logged st ++ [error_exception (YasnoMetricException key);
                           error_exception (YasnoMetricException key)].
Proof.
  intros Hscan Hconv.
  assert (Hrun : ∀ s : state,
            Worker.scan (metrics_collector (self s)) key = None →
            Worker.ensure_metric key env s =
              (Ok None,
               add_log (error_exception (YasnoMetricException key))
                 (tick_allocated (add_log (debug_cannot_find key) s)))).
  { intros s Hs. by rewrite ensure_metric_run, Hs, init_run, Hconv. }
  assert (Herr : ∀ s : state,
            errors_logged
              (add_log (error_exception (YasnoMetricException key))
                 (tick_allocated (add_log (debug_cannot_find key) s)))
            = errors_logged s ++ [error_exception (YasnoMetricException key)]).
  { intros s. unfold errors_logged. simpl. rewrite !List.filter_app. simpl.
    by rewrite app_nil_r. }
  rewrite (Hrun st Hscan). simpl.
  split; [done |]. split; [done |]. split; [done |]. split; [apply Herr |].
  rewrite Hrun by done. simpl. split; [done |].
  by rewrite Herr, Herr, <- app_assoc.
Qed.

End Metrics.

(** The keys [aB] and [a_b] both derive to [a_b]: once the metric of [aB]
    exists, asking for [a_b] raises. *)
Lemma constructor_failure_escapes_witness :
  ∃ (m : YasnoMetric) (st1 : state),
    Worker.ensure_metric "aB" (plain_env (fun _ => 0) 200 []) (main_state 300)
      = (Ok (Some m), st1)
    ∧ (Worker.ensure_metric "a_b" (plain_env (fun _ => 0) 200 []) st1).1
      = Raise (ValueError "yasno_a_b").
Proof.
  eexists _, _. split; [reflexivity |].
  exact (proj1 (proj2 (constructor_failure_escapes
                         (plain_env (fun _ => 0) 200 []) "aB" "a_b"
                         (main_state 300) eq_refl eq_refl)
                  "a_b" _ _ eq_refl eq_refl eq_refl)).
Defined.

Lemma failing_key_is_logged_each_time_witness :
  errors_logged
    (Worker.ensure_metric "1blackout" (plain_env (fun _ => 0) 200 []) odd_state).2
  = [error_exception (YasnoMetricException "1blackout")].
Proof.
  exact (proj1 (proj2 (proj2 (proj2
           (failing_key_is_logged_each_time (plain_env (fun _ => 0) 200 [])
              "1blackout" odd_state eq_refl eq_refl))))).
Defined.

(** * Further properties of the evaluator, the groups and the loop *)

Lemma spec_evaluate_filter (now : Z) (cs : list component) (p : bool) :
  spec_evaluate now cs false p
    = spec_evaluate now (List.filter (relevant now) cs) false p.
Proof.
  revert p. induction cs as [|c cs IH]; intros p; [done |].
  simpl. unfold relevant at 1.
  destruct (active now c) eqn:Hact; simpl; [| apply IH].
  destruct (Worker.summary_is (summary c) Worker.no_power) eqn:Hnp; simpl.
  { by rewrite Hact, Hnp. }
  destruct (Worker.summary_is (summary c) Worker.possible_outage) eqn:Hpo; simpl.
  - rewrite Hact, Hnp, Hpo. apply IH.
  - apply IH.
Qed.

Lemma summary_is_false (summary : option string) (text : string) :
  summary ≠ Some text → Worker.summary_is summary text = false.
Proof.
  destruct summary as [s|]; [| done]. intros Hne. simpl.
  apply String.eqb_neq. congruence.
Qed.

(** X9.  Over a calendar whose events have a start and an end, both
    timezone-aware, and with every reading of the clock the value [now],
    only the events that are active and carry one of the two known summaries
    matter to the scan: removing every other component (a component that is
    no event, an event with another summary or none, an event that is not
    active) leaves the result unchanged.  An event is not active at its own
    start or end instant, nor when its end is not after its start; with no
    event that matters the values written are (0, 0, 1). *)
Theorem scan_ignores_other_components (env : environment) (st : state) (now : Z)
    (components : list component) :
  forallb well_timed components = true →
  (∀ j : nat, reading env (now_calls st + j) = now) →
  ∃ (r : bool * bool) (st' : state),
    Worker.walk_loop components false false env st = (Ok r, st')
    ∧ r = spec_evaluate now (List.filter (relevant now) components) false false
    ∧ (List.filter (relevant now) components = [] →
       Worker.gauge_values r.1 r.2 = (0, 0, 1))
    ∧ ∀ (c : component) (s e : Z),
        dtstart c = Some (datetime_aware s) →
        dtend c = Some (datetime_aware e) →
        component_name c ≠ "VEVENT" ∨ now ≤ s ∨ e ≤ now ∨ e ≤ s
        ∨ (summary c ≠ Some Worker.no_power
           ∧ summary c ≠ Some Worker.possible_outage) →
        relevant now c = false.
Proof.
  intros Htimed Hclock.
  destruct (walk_loop_run env components false st)
    as (r & k & Hrun & _ & _ & Hok & Hspec).
  destruct (Hok Htimed) as [v ->].
  exists v, (advance_now k st). split; [done |].
  specialize (Hspec now v (fun j _ => Hclock j) eq_refl).
  rewrite spec_evaluate_filter in Hspec. split; [done |]. split.
  - intros Hnone. rewrite Hspec, Hnone. done.
  - intros c s e Hs He Hc. unfold relevant, active. rewrite Hs, He.
    destruct Hc as [Hname|[Hstart|[Hend|[Hempty|[Hnp Hpo]]]]].
    + apply String.eqb_neq in Hname. by rewrite Hname.
    + replace (s <? now) with false by (symmetry; apply Z.ltb_ge; lia).
      by rewrite andb_false_r.
    + replace (now <? e) with false by (symmetry; apply Z.ltb_ge; lia).
      by rewrite !andb_false_r.
    + destruct (s <? now) eqn:H1; [| by rewrite andb_false_r].
      apply Z.ltb_lt in H1.
      replace (now <? e) with false by (symmetry; apply Z.ltb_ge; lia).
      by rewrite !andb_false_r.
    + rewrite (summary_is_false _ _ Hnp), (summary_is_false _ _ Hpo).
      by rewrite andb_false_r.
Qed.

(** At the instant 5, the start of both events of [overlapping_feed], no
    event is active. *)
Lemma scan_ignores_other_components_witness :
  ∃ (r : bool * bool) (st' : state),
    Worker.walk_loop overlapping_feed false false
      (plain_env (fun _ => 5) 200 overlapping_feed) (main_state 300) = (Ok r, st')
    ∧ Worker.gauge_values r.1 r.2 = (0, 0, 1).
Proof.
  destruct (scan_ignores_other_components
              (plain_env (fun _ => 5) 200 overlapping_feed) (main_state 300) 5
              overlapping_feed eq_refl (fun _ => eq_refl))
    as (r & st' & Hrun & _ & Hnone & _).
  exists r, st'. split; [exact Hrun | exact (Hnone eq_refl)].
Defined.

Section Blind.

Variable P : state → Prop.
Hypothesis P_blind : log_registry_blind P.

Lemma blind_lookup_and_set (key : string) (value : Z) (label : string) :
  keeps P (Worker.lookup_and_set key value label).
Proof.
  destruct P_blind as [Hlog Hreg]. intros env st HP.
  rewrite lookup_and_set_run.
  destruct (Worker.scan (metrics_collector (self st)) key) as [m|].
  - rewrite set_run_float.
    destruct (float_of_int value); simpl; [by apply Hreg, Hlog, Hlog |].
    by apply Hlog, Hlog.
  - simpl. by apply Hlog.
Qed.

Lemma blind_write_gauges (blackout possible_blackout : bool) (g : string) :
  keeps P (Worker.write_gauges blackout possible_blackout g).
Proof.
  unfold Worker.write_gauges.
  destruct (Worker.gauge_values blackout possible_blackout) as [[b p] n].
  repeat first [ apply blind_lookup_and_set | apply keeps_gets
               | apply keeps_bind; [| intros ?] ].
Qed.

End Blind.

Section Cycle.

Variable env : environment.
Hypothesis env_accepts : accepts_identifiers env.

Lemma process_group_ready (id : nat) (st : state) :
  inv st → ready (Worker.process_group id env st).2.
Proof.
  intros Hinv.
  destruct (process_group_run env env_accepts id st Hinv)
    as (st1 & _ & Hready & _ & _ & _ & Hrun).
  destruct (network env _ _) as [response|]; [| by rewrite Hrun].
  destruct (from_ical env _) as [gcal|]; [| by rewrite Hrun].
  destruct Hrun as ([v|e] & k & _ & Hrun); [| by rewrite Hrun].
  destruct Hrun as (st' & -> & Hself & _).
  unfold ready. simpl. by rewrite Hself.
Qed.

Lemma process_group_requests (id : nat) (st : state) :
  inv st → get_calls (Worker.process_group id env st).2 = S (get_calls st).
Proof.
  intros Hinv.
  destruct (ensure_phase env env_accepts st Hinv)
    as (ms & st1 & Hens & _ & _ & _ & Hget & _).
  unfold Worker.process_group. rewrite run_bind, run_gets.
  destruct Hinv as [(Hb & Hp & Hn) _]. rewrite Hb, Hp, Hn.
  rewrite run_bind, Hens, run_bind, requests_get_run.
  destruct (network env (get_calls st1) _) as [response|]; simpl; [| lia].
  rewrite run_bind, Calendar_from_ical_run.
  destruct (from_ical env (content response)) as [gcal|]; simpl; [| lia].
  destruct (walk_loop_run env gcal false (tick_get st1))
    as ([[b p]|e] & k & Hwalk & _); rewrite run_bind, Hwalk; [| simpl; lia].
  apply (blind_write_gauges (fun s => get_calls s = S (get_calls st))).
  - split; by intros r s Hs.
  - simpl. lia.
Qed.

Lemma for_each_requests (ids : list nat) (st : state) :
  inv st →
  (get_calls st
   ≤ get_calls (Worker.for_each ids Worker.process_group env st).2
   ≤ get_calls st + length ids)%nat
  ∧ (ids ≠ [] →
     (get_calls st < get_calls (Worker.for_each ids Worker.process_group env st).2)%nat)
  ∧ ((Worker.for_each ids Worker.process_group env st).1 = Ok tt →
     get_calls (Worker.for_each ids Worker.process_group env st).2
     = (get_calls st + length ids)%nat).
Proof.
  revert st. induction ids as [|id ids IH]; intros st Hinv.
  { simpl. split; [lia |]. split; [done |]. intros _. lia. }
  rewrite for_each_cons.
  pose proof (process_group_inv env env_accepts id st Hinv) as Hinv1.
  pose proof (process_group_requests id st Hinv) as Hone.
  destruct (Worker.process_group id env st) as [[[]|e] st1]; simpl in *.
  - destruct (IH st1 Hinv1) as (Hle & _ & Hok).
    split; [lia |]. split; [intros _; lia |]. intros H. rewrite (Hok H). lia.
  - split; [lia |]. split; [intros _; lia | done].
Qed.

(** X10.  In a running exporter, processing a group changes no sample
    labelled with another group, whatever the outcome. *)
Theorem group_writes_only_its_label (st : state) (id other : nat) :
  inv st → other ≠ id →
  ∀ n : string,
    sample (REGISTRY (Worker.process_group id env st).2) n (Worker.group_name other)
      = sample (REGISTRY st) n (Worker.group_name other).
Proof.
  intros Hinv Hne n.
  destruct (process_group_frame env env_accepts id st Hinv) as [Hoff _].
  apply Hoff. intros Heq. by apply (inj Worker.group_name) in Heq.
Qed.

(** X11.  Started by [main], the exporter holds after any number of
    iterations of the loop, however they ended, its three built-in keys and
    either no metric or exactly the three metrics [blackout],
    [possible_blackout], [no_blackout] in this order, each named ["yasno_"]
    followed by its key; and once a group has been processed, with whatever
    outcome, the three metrics exist. *)
Theorem running_exporter_has_three_metrics (collecting_interval_seconds : Z)
    (n : nat) :
  inv (Worker.loop n env (main_state collecting_interval_seconds)).2
  ∧ (length (metrics_collector
               (self (Worker.loop n env (main_state collecting_interval_seconds)).2))
     ≤ 3)%nat
  ∧ ∀ (id : nat) (st : state), inv st → ready (Worker.process_group id env st).2.
Proof.
  pose proof (loop_inv env env_accepts n (main_state collecting_interval_seconds)
                (inv_main_state collecting_interval_seconds)) as Hinv.
  split; [done |]. split; [| apply process_group_ready].
  destruct Hinv as [_ [(Hcol & _)|(i & j & k & Hcol)]]; rewrite Hcol; simpl; lia.
Qed.

(** X12.  In a running exporter every group makes exactly one request,
    whatever its outcome: there is no retry.  A cycle makes at least one and
    at most six requests, and exactly six when it completes. *)
Theorem one_request_per_group (st : state) :
  inv st →
  (∀ id : nat, get_calls (Worker.process_group id env st).2 = S (get_calls st))
  ∧ (get_calls st < get_calls (Worker.process_calendar env st).2
     ≤ get_calls st + 6)%nat
  ∧ ((Worker.process_calendar env st).1 = Ok tt →
     get_calls (Worker.process_calendar env st).2 = (get_calls st + 6)%nat).
Proof.
  intros Hinv. split; [intros id; by apply process_group_requests |].
  destruct (for_each_requests (seq 1 6) st Hinv) as ([_ Hle] & Hlt & Hok).
  split; [| done]. split; [by apply Hlt | done].
Qed.

End Cycle.

Lemma group_writes_only_its_label_witness :
  sample
    (REGISTRY
       (Worker.process_group 2 (plain_env (fun _ => 7) 200 overlapping_feed)
          (Worker.process_group 1 (plain_env (fun _ => 7) 200 overlapping_feed)
             (main_state 300)).2).2)
    "yasno_blackout" "group_1"
  = sample
      (REGISTRY
         (Worker.process_group 1 (plain_env (fun _ => 7) 200 overlapping_feed)
            (main_state 300)).2)
      "yasno_blackout" "group_1".
Proof.
  exact (group_writes_only_its_label
           (plain_env (fun _ => 7) 200 overlapping_feed) (plain_env_accepts _ _ _)
           _ 2 1
           (process_group_inv _ (plain_env_accepts _ _ _) 1 _ (inv_main_state 300))
           ltac:(discriminate) "yasno_blackout").
Defined.

Lemma running_exporter_has_three_metrics_witness :
  inv (Worker.loop 2 (outage_env 8 []) (main_state 300)).2.
Proof.
  exact (proj1 (running_exporter_has_three_metrics (outage_env 8 [])
                  (outage_env_accepts _ _) 300 2)).
Defined.

Lemma one_request_per_group_witness :
  get_calls (Worker.process_calendar (outage_env 2 []) (main_state 300)).2 = 3%nat
  ∧ (0 < get_calls (Worker.process_calendar (outage_env 2 []) (main_state 300)).2
     ≤ 6)%nat.
Proof.
  split; [vm_compute; reflexivity |].
  exact (proj1 (proj2 (one_request_per_group (outage_env 2 [])
                         (outage_env_accepts _ _) (main_state 300)
                         (inv_main_state 300)))).
Defined.

(** X14.  End to end for one group of a running exporter: when the request
    is answered, the body parses to a calendar whose events have a start and
    an end, both timezone-aware, and every reading of the clock is the value
    [now], the three gauges hold at the label of the group the state of the
    calendar at [now] by precedence, blackout before possible_blackout before
    no_blackout, whatever they held before and whatever the status of the
    response. *)
Theorem group_publishes_calendar_status (env : environment) (st : state)
    (id : nat) (now : Z) (response : Response) (gcal : list component) :
  accepts_identifiers env → inv st →
  (∀ j : nat, reading env j = now) →
  network env (get_calls st) (Worker.url (Worker.group_name id)) = Some response →
  from_ical env (content response) = Some gcal →
  forallb well_timed gcal = true →
  ∃ st' : state,
    Worker.process_group id env st = (Ok tt, st')
    ∧ status_samples (REGISTRY st') (Worker.group_name id) =
        let '(b, p, n) := spec_status now gcal in (Some b, Some p, Some n).
Proof.
  intros Henv Hinv Hclock Hnet Hical Htimed.
  destruct (process_group_run env Henv id st Hinv)
    as (st1 & _ & _ & _ & _ & _ & Hrun).
  rewrite Hnet, Hical in Hrun.
  destruct Hrun as (r & k & Hwalk & Hrun).
  destruct (walk_loop_total env gcal false (tick_get st1) Htimed)
    as ([b p] & k' & Hwalk' & _).
  rewrite Hwalk' in Hwalk. injection Hwalk as <- _.
  destruct Hrun as (st' & Hrun & _ & Hreg).
  exists st'. split; [done |]. rewrite Hreg. cbn [fst snd].
  rewrite (walk_loop_status env now gcal (tick_get st1) b p _
             (fun j _ => Hclock _) Hwalk').
  destruct (spec_status now gcal) as [[vb vp] vn].
  apply status_samples_written.
Qed.

(** Group 1 at the instant 7, both events of [overlapping_feed] active:
    blackout. *)
Lemma group_publishes_calendar_status_witness :
  ∃ st' : state,
    Worker.process_group 1 (plain_env (fun _ => 7) 500 overlapping_feed)
      (main_state 300) = (Ok tt, st')
    ∧ status_samples (REGISTRY st') "group_1" = (Some 1, Some 0, Some 0).
Proof.
  exact (group_publishes_calendar_status
           (plain_env (fun _ => 7) 500 overlapping_feed) (main_state 300) 1 7
           _ overlapping_feed (plain_env_accepts _ _ _) (inv_main_state 300)
           (fun _ => eq_refl) eq_refl eq_refl eq_refl).
Defined.
